(** * A shallow embedding of the PDF engine prototype (pdf.js, fonts.js)

    The development follows the JavaScript sources function by function:
    - [Stream] (pdf.js, lines 4-59): byte cursor and [find];
    - [Lexer] (pdf.js, lines 176-459): [ToHexDigit], [getName] and the
      command branch of [getObj];
    - [XRef.readXRefTable] (pdf.js, lines 641-718);
    - [Linearization] and the [PDFDoc.linearization] getter;
    - [Interpreter.interpretHelper] (pdf.js, lines 803-847);
    - [Type1Parser.decodeCharString] and [CFF.getOrderedCharStrings]
      (fonts.js).

    JavaScript strings are sequences of UTF-16 code units, numbers that
    the code treats as integers are [Z], the 32-bit operators ([|], [<<],
    [>>]) wrap explicitly, [undefined] is [None], and a thrown exception
    is an explicit outcome. *)

From Stdlib Require Import ZArith QArith_base List String Ascii Lia Bool Permutation Sorted.
From stdpp Require Import base option list gmap.
Import ListNotations.
Local Open Scope Z_scope.
#[local] Set Warnings "-register-all".

(** ** JavaScript values shared by all components *)

(** A JavaScript string: its UTF-16 code units. *)
Definition jsstring : Type := list Z.

(** [js "abc"] is the JavaScript string literal ["abc"]. *)
Definition js (s : string) : jsstring :=
  List.map (fun a => Z.of_N (N_of_ascii a)) (list_ascii_of_string s).

Definition jsstring_eqb (a b : jsstring) : bool :=
  bool_decide (a = b).

(** [ToInt32]: the wrap-around every bitwise operator applies first. *)
Definition ToInt32 (z : Z) : Z :=
  (z + 2147483648) mod 4294967296 - 2147483648.

(** [String.fromCharCode(x)]: [ToUint16] of the argument; [undefined]
    converts to NaN and then to code unit 0. *)
Definition fromCharCode (x : option Z) : Z :=
  match x with
  | Some v => v mod 65536
  | None => 0
  end.

(** [str += ch] where [ch] may be [undefined], which JavaScript renders
    as the nine characters of "undefined". *)
Definition append_char (str : jsstring) (ch : option Z) : jsstring :=
  match ch with
  | Some c => str ++ [c]
  | None => str ++ js "undefined"
  end.

(** ** String.prototype.indexOf and lastIndexOf (one argument) *)

Fixpoint isPrefix (needle str : jsstring) : bool :=
  match needle, str with
  | [], _ => true
  | _ :: _, [] => false
  | a :: needle', b :: str' => (a =? b) && isPrefix needle' str'
  end.

Fixpoint indexOf_from (k : Z) (str needle : jsstring) : Z :=
  if isPrefix needle str then k
  else match str with
       | [] => -1
       | _ :: str' => indexOf_from (k + 1) str' needle
       end.

Definition indexOf (str needle : jsstring) : Z := indexOf_from 0 str needle.

Fixpoint lastIndexOf_from (k : Z) (str needle : jsstring) : Z :=
  match str with
  | [] => if isPrefix needle [] then k else -1
  | _ :: str' =>
      let r := lastIndexOf_from (k + 1) str' needle in
      if r =? -1 then (if isPrefix needle str then k else -1) else r
  end.

Definition lastIndexOf (str needle : jsstring) : Z :=
  lastIndexOf_from 0 str needle.

(** [occurs_at str needle k]: [needle] occurs in [str] starting at
    offset [k]. *)
Definition occurs_at (str needle : jsstring) (k : Z) : Prop :=
  exists pre post : jsstring,
    str = pre ++ needle ++ post /\ Z.of_nat (List.length pre) = k.

(** ** Stream (pdf.js, lines 4-59) *)

Module Stream.

Record t := mk { bytes : list Z; pos : Z }.

(** [get length()] *)
Definition length (s : t) : Z := Z.of_nat (List.length (bytes s)).

(** [bytes[p]]: [undefined] outside the array. *)
Definition byteAt (s : t) (p : Z) : option Z :=
  if p <? 0 then None else nth_error (bytes s) (Z.to_nat p).

Definition lookChar (s : t) : option Z :=
  if length s <=? pos s then None
  else Some (fromCharCode (byteAt s (pos s))).

Definition getChar (s : t) : option Z * t :=
  (lookChar s, mk (bytes s) (pos s + 1)).

Definition putBack (s : t) : t := mk (bytes s) (pos s - 1).
Definition skipChar (s : t) : t := mk (bytes s) (pos s + 1).
Definition skip (n : Z) (s : t) : t := mk (bytes s) (pos s + n).
Definition reset (s : t) : t := mk (bytes s) 0.

(** The loop [for (n = 0; n < limit; ++n) str += this.getChar()]. *)
Fixpoint find_read (n : nat) (s : t) (str : jsstring) : jsstring * t :=
  match n with
  | O => (str, s)
  | S n' =>
      let '(ch, s1) := getChar s in
      find_read n' s1 (append_char str ch)
  end.

Definition find (needle : jsstring) (limit : Z) (backwards : bool) (s : t)
  : bool * t :=
  let len := length s in
  let pos0 := pos s in
  let limit := if len <? pos0 + limit then len - pos0 else limit in
  let '(str, s1) := find_read (Z.to_nat limit) s [] in
  let s2 := mk (bytes s1) pos0 in
  let index := if backwards then lastIndexOf str needle
               else indexOf str needle in
  if index =? -1 then (false, s2)
  else (true, mk (bytes s2) (pos s2 + index)).

(** The characters of the search window, read off the byte array
    without running the loop: at most [limit] characters from the
    current position, cut at the end of the data. *)
Definition window (s : t) (limit : Z) : jsstring :=
  List.map (fun i => fromCharCode (byteAt s (pos s + Z.of_nat i)))
           (seq 0 (Z.to_nat (Z.min limit (length s - pos s)))).

End Stream.

(** ** Exceptions and numbers *)

(** What a JavaScript statement can end in besides a value. *)
Inductive exn : Type :=
| TypeError (what : string)
| ReferenceError (name : string)
| FatalError (what : string).

Inductive outcome (A : Type) : Type :=
| Ok (a : A)
| Throw (e : exn).
Arguments Ok {A} a.
Arguments Throw {A} e.

(** A JavaScript number as far as the code needs it: an integer or NaN. *)
Inductive jsnum : Type :=
| Num (z : Z)
| NaN.

(** [ToInt32] on a number: NaN converts to 0. *)
Definition jsnum_ToInt32 (n : jsnum) : Z :=
  match n with
  | Num z => ToInt32 z
  | NaN => 0
  end.

(** [a << k] *)
Definition js_shl (a : jsnum) (k : Z) : Z :=
  ToInt32 (Z.shiftl (jsnum_ToInt32 a) (k mod 32)).

(** [a >> k] *)
Definition js_shr (a : jsnum) (k : Z) : Z :=
  Z.shiftr (jsnum_ToInt32 a) (k mod 32).

(** [a | b] *)
Definition js_or (a b : jsnum) : Z :=
  Z.lor (jsnum_ToInt32 a) (jsnum_ToInt32 b).

(** [a - b] and [a + b] on numbers *)
Definition js_sub (a b : jsnum) : jsnum :=
  match a, b with
  | Num x, Num y => Num (x - y)
  | _, _ => NaN
  end.

Definition js_add (a b : jsnum) : jsnum :=
  match a, b with
  | Num x, Num y => Num (x + y)
  | _, _ => NaN
  end.

(** [x == -1] and [x != -1] on a number: NaN equals nothing. *)
Definition js_eq_num (a : jsnum) (v : Z) : bool :=
  match a with
  | Num x => x =? v
  | NaN => false
  end.

(** A value read from an array slot that may be missing. *)
Definition num_of_slot (o : option Z) : jsnum :=
  match o with
  | Some z => Num z
  | None => NaN
  end.

(** ** Lexer (pdf.js, lines 176-459) *)

Module Lexer.

(** A '1' in this array means the character is white space.  A '1' or
    '2' means the character ends a name or command. *)
Definition specialChars_table : list Z :=
  [ 1; 0; 0; 0; 0; 0; 0; 0; 0; 1; 1; 0; 1; 1; 0; 0;   (* 0x *)
    0; 0; 0; 0; 0; 0; 0; 0; 0; 0; 0; 0; 0; 0; 0; 0;   (* 1x *)
    1; 0; 0; 0; 0; 2; 0; 0; 2; 2; 0; 0; 0; 0; 0; 2;   (* 2x *)
    0; 0; 0; 0; 0; 0; 0; 0; 0; 0; 0; 0; 2; 0; 2; 0;   (* 3x *)
    0; 0; 0; 0; 0; 0; 0; 0; 0; 0; 0; 0; 0; 0; 0; 0;   (* 4x *)
    0; 0; 0; 0; 0; 0; 0; 0; 0; 0; 0; 2; 0; 2; 0; 0;   (* 5x *)
    0; 0; 0; 0; 0; 0; 0; 0; 0; 0; 0; 0; 0; 0; 0; 0;   (* 6x *)
    0; 0; 0; 0; 0; 0; 0; 0; 0; 0; 0; 2; 0; 2; 0; 0;   (* 7x *)
    0; 0; 0; 0; 0; 0; 0; 0; 0; 0; 0; 0; 0; 0; 0; 0;   (* 8x *)
    0; 0; 0; 0; 0; 0; 0; 0; 0; 0; 0; 0; 0; 0; 0; 0;   (* 9x *)
    0; 0; 0; 0; 0; 0; 0; 0; 0; 0; 0; 0; 0; 0; 0; 0;   (* ax *)
    0; 0; 0; 0; 0; 0; 0; 0; 0; 0; 0; 0; 0; 0; 0; 0;   (* bx *)
    0; 0; 0; 0; 0; 0; 0; 0; 0; 0; 0; 0; 0; 0; 0; 0;   (* cx *)
    0; 0; 0; 0; 0; 0; 0; 0; 0; 0; 0; 0; 0; 0; 0; 0;   (* dx *)
    0; 0; 0; 0; 0; 0; 0; 0; 0; 0; 0; 0; 0; 0; 0; 0;   (* ex *)
    0; 0; 0; 0; 0; 0; 0; 0; 0; 0; 0; 0; 0; 0; 0; 0 ]. (* fx *)

(** [specialChars[ch.charCodeAt(0)]]; a missing slot ([undefined])
    behaves as 0 under [!] and [!= 1], the only uses. *)
Definition specialChars (c : Z) : Z :=
  if c <? 0 then 0 else nth (Z.to_nat c) specialChars_table 0.

(** [ToNumber] of a one-character string: a decimal digit is its
    value, white space is 0, anything else is NaN. *)
Definition ToNumber_char (c : Z) : jsnum :=
  if (48 <=? c) && (c <=? 57) then Num (c - 48)
  else if (c =? 9) || (c =? 10) || (c =? 11) || (c =? 12) || (c =? 13)
          || (c =? 32) || (c =? 160) then Num 0
  else NaN.

(** [ch.toLowerCase()] on a one-character string whose code is a byte
    (the Latin-1 range, which is all the stream can deliver). *)
Definition toLowerCase (c : Z) : Z :=
  if (65 <=? c) && (c <=? 90) then c + 32
  else if (192 <=? c) && (c <=? 222) && negb (c =? 215) then c + 32
  else c.

(** [ToHexDigit(ch)]; [ch] is a one-character string or [undefined].
    String comparison of one-character strings compares code units;
    a comparison with [undefined] is false; [undefined.toLowerCase()]
    throws. *)
Definition ToHexDigit (ch : option Z) : outcome jsnum :=
  match ch with
  | None => Throw (TypeError "ch is undefined")
  | Some c =>
      if (48 <=? c) && (c <=? 57)
      then Ok (js_sub (ToNumber_char c) (ToNumber_char 48))
      else
        let c := toLowerCase c in
        if (97 <=? c) && (c <=? 102)
        then Ok (js_sub (ToNumber_char c) (ToNumber_char 97))
        else Ok (Num (-1))
  end.

(** Objects created with [new]; a reference is the position of the
    object in the heap, so reference equality is object identity. *)
Inductive heapobj : Type :=
| HName (name : jsstring)
| HCmd (cmd : jsstring).

Record state := mkState {
  stream : Stream.t;
  printed : list string;       (* what [this.error] printed *)
  heap : list heapobj
}.

(** A token as [getName] and the command branch return it. *)
Inductive token : Type :=
| TRef (r : nat)               (* a Name or Cmd object *)
| TBool (b : bool)
| TNull.

(** [this.error(msg)]: [print(msg)], nothing else. *)
Definition error (msg : string) (st : state) : state :=
  mkState (stream st) (printed st ++ [msg]) (heap st).

Definition new (o : heapobj) (st : state) : nat * state :=
  (List.length (heap st),
   mkState (stream st) (printed st) (heap st ++ [o])).

Definition with_stream (st : state) (s : Stream.t) : state :=
  mkState s (printed st) (heap st).

(** The loop of [getName]. [None] is fuel exhaustion, which
    [getName_loop_fuel] shows cannot happen from [getName]. *)
Fixpoint getName_loop (fuel : nat) (st : state) (str : jsstring)
  : option (outcome (jsstring * state)) :=
  match fuel with
  | O => None
  | S fuel' =>
      match Stream.lookChar (stream st) with
      | None => Some (Ok (str, st))
      | Some ch =>
          if negb (specialChars ch =? 0) then Some (Ok (str, st))
          else
            let st := with_stream st (snd (Stream.getChar (stream st))) in
            if ch =? 35 (* "#" *) then
              let ch := Stream.lookChar (stream st) in
              match ToHexDigit ch with
              | Throw e => Some (Throw e)
              | Ok x =>
                  if negb (js_eq_num x (-1)) then
                    let st := with_stream st (snd (Stream.getChar (stream st))) in
                    let '(ch2, s2) := Stream.getChar (stream st) in
                    let st := with_stream st s2 in
                    match ToHexDigit ch2 with
                    | Throw e => Some (Throw e)
                    | Ok x2 =>
                        let st := if js_eq_num x2 (-1)
                                  then error "Illegal digit in hex char in name" st
                                  else st in
                        getName_loop fuel' st
                          (str ++ [fromCharCode
                                     (Some (js_or (Num (js_shl x 4)) x2))])
                    end
                  else
                    getName_loop fuel' st (append_char (str ++ [35]) ch)
              end
            else getName_loop fuel' st (str ++ [ch])
      end
  end.

Definition getName_fuel (st : state) : nat :=
  S (Z.to_nat (Stream.length (stream st) - Stream.pos (stream st))).

(** [getName(ch)]: the argument is overwritten before it is read. *)
Definition getName (st : state) : option (outcome (token * state)) :=
  match getName_loop (getName_fuel st) st [] with
  | None => None
  | Some (Throw e) => Some (Throw e)
  | Some (Ok (str, st)) =>
      let st := if 128 <? Z.of_nat (List.length str)
                then error "Warning: name token is longer than allowed by the specification" st
                else st in
      let '(r, st) := new (HName str) st in
      Some (Ok (TRef r, st))
  end.

(** The loop of the command branch of [getObj] (lines 440-447). The
    global [error] it calls is declared nowhere in pdf.js, so the
    call is a ReferenceError. *)
Fixpoint getCommand_loop (fuel : nat) (st : state) (str : jsstring)
  : option (outcome (jsstring * state)) :=
  match fuel with
  | O => None
  | S fuel' =>
      match Stream.lookChar (stream st) with
      | None => Some (Ok (str, st))
      | Some ch =>
          if negb (specialChars ch =? 0) then Some (Ok (str, st))
          else
            let st := with_stream st (snd (Stream.getChar (stream st))) in
            if Z.of_nat (List.length str) =? 128
            then Some (Throw (ReferenceError "error"))
            else getCommand_loop fuel' st (str ++ [ch])
      end
  end.

(** The command branch of [getObj] (lines 438-454), entered with the
    first character [ch] of the token already consumed. *)
Definition getObj_command (ch : Z) (st : state)
  : option (outcome (token * state)) :=
  match getCommand_loop (getName_fuel st) st [ch] with
  | None => None
  | Some (Throw e) => Some (Throw e)
  | Some (Ok (str, st)) =>
      if jsstring_eqb str (js "true") then Some (Ok (TBool true, st))
      else if jsstring_eqb str (js "false") then Some (Ok (TBool false, st))
      else if jsstring_eqb str (js "null") then Some (Ok (TNull, st))
      else let '(r, st) := new (HCmd str) st in Some (Ok (TRef r, st))
  end.

(** [a == b] on two object references: identity. *)
Definition same_object (a b : token) : bool :=
  match a, b with
  | TRef x, TRef y => Nat.eqb x y
  | _, _ => false
  end.

(** The text a token object carries ([v.name] or [v.cmd]). *)
Definition text_of (st : state) (t : token) : option jsstring :=
  match t with
  | TRef r =>
      match nth_error (heap st) r with
      | Some (HName s) => Some s
      | Some (HCmd s) => Some s
      | None => None
      end
  | _ => None
  end.

Definition init (bytes : list Z) (h : list heapobj) : state :=
  mkState (Stream.mk bytes 0) [] h.

End Lexer.

(** ** Parsed objects (what [Parser.getObj] hands to its callers) *)

(** [OInt] is a number with an integral value, [OReal] a number with a
    fractional part. [OUndefined] is what [MockParser.getObj] returns
    once its array is used up. *)
Inductive obj : Type :=
| OInt (z : Z)
| OReal (q : Q)
| OBool (b : bool)
| OStr (s : jsstring)
| OName (name : jsstring)
| OCmd (cmd : jsstring)
| OArr (items : list obj)
| ODict (props : list (jsstring * obj))
| ORef (num gen : Z)
| ONull
| OUndefined
| OError
| OEOF.

(** [IsInt(v)]: [typeof v == "number" && ((v|0) == v)] *)
Definition IsInt (v : obj) : bool :=
  match v with
  | OInt z => ToInt32 z =? z
  | _ => false
  end.

(** [IsNum(v)] *)
Definition IsNum (v : obj) : bool :=
  match v with
  | OInt _ | OReal _ => true
  | _ => false
  end.

(** [IsCmd(v, cmd)] with the second argument given: the comparison
    [v.cmd == cmd] is on string content. *)
Definition IsCmd (v : obj) (cmd : jsstring) : bool :=
  match v with
  | OCmd c => match cmd with
              | [] => true             (* [!cmd]: the empty string *)
              | _ => jsstring_eqb c cmd
              end
  | _ => false
  end.


Definition IsDict (v : obj) : bool :=
  match v with
  | ODict _ => true
  | _ => false
  end.

(** [IsEOF(v)]: [v == EOF], identity with the one [EOF] object. *)
Definition IsEOF (v : obj) : bool :=
  match v with
  | OEOF => true
  | _ => false
  end.

(** The integer an [IsInt] object stands for. *)
Definition int_of (v : obj) : Z :=
  match v with
  | OInt z => z
  | _ => 0
  end.

(** ** The parser as its callers see it *)

Module Parser.

(** The objects that the successive [parser.getObj()] calls return;
    when the data is used up the lexer returns [EOF] for ever. *)
Definition t : Type := list obj.

Definition getObj (p : t) : obj * t :=
  match p with
  | [] => (OEOF, [])
  | o :: p' => (o, p')
  end.

End Parser.

(** ** XRef.readXRefTable (pdf.js, lines 641-718) *)

Module XRef.

Import Parser.
Abbreviation parser := Parser.t.

(** An entry object: [{offset, gen, uncompressed: true}] or
    [{offset, gen, free: true}]. *)
Inductive kind : Type := Uncompressed | Free.

Record entry := mkEntry { offset : Z; gen : Z; flag : kind }.

Definition free (e : entry) : bool :=
  match flag e with
  | Free => true
  | Uncompressed => false
  end.

(** Result of the [for] loop over one subsection. *)
Inductive loop_result : Type :=
| LoopDone (entries : gmap Z entry) (p : parser)   (* loop ran to its end *)
| LoopFalse (entries : gmap Z entry)               (* [return false] *)
| LoopFuel.                                        (* fuel exhausted *)

(** [for (var i = first; i < first + n; ++i) { ... }]; [first] is
    a loop variable too, since the body may reset it. *)
Fixpoint entryLoop (fuel : nat) (entries : gmap Z entry)
         (i first n : Z) (p : parser) : loop_result :=
  if negb (i <? first + n) then LoopDone entries p
  else
    match fuel with
    | O => LoopFuel
    | S fuel' =>
        let '(o1, p) := getObj p in
        if negb (IsInt o1) then LoopFalse entries
        else
          let '(o2, p) := getObj p in
          if negb (IsInt o2) then LoopFalse entries
          else
            let '(o3, p) := getObj p in
            let mk := if IsCmd o3 (js "n") then Some Uncompressed
                      else if IsCmd o3 (js "f") then Some Free
                      else None in
            match mk with
            | None => LoopFalse entries
            | Some k =>
                let e := mkEntry (int_of o1) (int_of o2) k in
                match entries !! i with
                | Some _ => entryLoop fuel' entries (i + 1) first n p
                | None =>
                    (* In some buggy PDF files the xref table claims
                       to start at 1 instead of 0. *)
                    if (i =? 1) && (first =? 1) && (offset e =? 0)
                       && (gen e =? 65535) && free e
                    then entryLoop fuel' (<[0 := e]> entries) (0 + 1) 0 n p
                    else entryLoop fuel' (<[i := e]> entries) (i + 1) first n p
                end
            end
    end.

(** Result of [readXRefTable]: the returned boolean, the entries
    array as the call leaves it, and [this.ok]. *)
Record result := mkResult {
  returned : bool;
  entries_after : gmap Z entry;
  ok : bool
}.

(** [while (true) { ... }] over the subsections. [None] is fuel
    exhaustion, which [readXRefTable_total] excludes. *)
Fixpoint tableLoop (fuel : nat) (entries : gmap Z entry) (p : parser)
  : option result :=
  match fuel with
  | O => None
  | S fuel' =>
      let '(o, p) := getObj p in
      if IsCmd o (js "trailer") then Some (mkResult true entries true)
      else if negb (IsInt o) then Some (mkResult false entries false)
      else
        let first := int_of o in
        let '(o, p) := getObj p in
        if negb (IsInt o) then Some (mkResult false entries false)
        else
          let n := int_of o in
          if (first <? 0) || (n <? 0) || negb (first + n =? ToInt32 (first + n))
          then Some (mkResult false entries false)
          else
            match entryLoop (Z.to_nat n) entries first first n p with
            | LoopFuel => None
            | LoopFalse entries => Some (mkResult false entries false)
            | LoopDone entries p => tableLoop fuel' entries p
            end
  end.

Definition readXRefTable (entries : gmap Z entry) (p : parser)
  : option result :=
  tableLoop (S (List.length p)) entries p.

(** The constructor starts from [this.entries = []]. *)
Definition fresh : gmap Z entry := ∅.

(** Tokens of one table line [offset gen n] or [offset gen f]. *)
Definition line (off g : Z) (k : kind) : list obj :=
  [OInt off; OInt g; OCmd (match k with Uncompressed => js "n" | Free => js "f" end)].

(** The pattern of the buggy tables: a subsection declared to start
    at 1 whose first entry is the head of the free list. *)
Definition bug_pattern (first : Z) (e : entry) : bool :=
  (first =? 1) && (offset e =? 0) && (gen e =? 65535) && free e.

(** *** What a subsection is expected to leave in the table

    These definitions do not come from the code: they say, in the
    words of the cross-reference rules, what the table should hold
    after a subsection, and the theorems compare the loop with
    them. *)

(** First wins: an entry goes to index [i] unless that index is
    already populated. *)
Definition store (entries : gmap Z entry) (i : Z) (e : entry)
  : gmap Z entry :=
  match entries !! i with
  | Some _ => entries
  | None => <[i := e]> entries
  end.

(** The entries [l] go to the consecutive indices from [i] on, each
    under the first-wins rule. *)
Fixpoint store_first_wins (entries : gmap Z entry) (i : Z) (l : list entry)
  : gmap Z entry :=
  match l with
  | [] => entries
  | e :: l' => store_first_wins (store entries i e) (i + 1) l'
  end.

Definition populated (entries : gmap Z entry) (i : Z) : bool :=
  match entries !! i with
  | Some _ => true
  | None => false
  end.

(** The table after the subsection [first (length l)] with the lines
    [l]: renumbered from 0 when the subsection shows the bug pattern
    and object 1 is not populated yet, stored at the declared indices
    otherwise. *)
Definition subsection_result (entries : gmap Z entry) (first : Z)
           (l : list entry) : gmap Z entry :=
  match l with
  | e0 :: l' =>
      if bug_pattern first e0 && negb (populated entries 1)
      then store_first_wins (<[0 := e0]> entries) 1 l'
      else store_first_wins entries first l
  | [] => entries
  end.

(** The three tokens of the line of entry [e]. *)
Definition line_of (e : entry) : list obj :=
  line (offset e) (gen e) (flag e).

(** A number that passes [IsInt]. *)
Definition int32 (z : Z) : Prop := ToInt32 z = z.

(** An entry whose offset and generation pass [IsInt]. *)
Definition well_formed (e : entry) : Prop :=
  int32 (offset e) /\ int32 (gen e).

(** A table of two subsections: object 0, then a subsection declared
    at 1 that shows the bug pattern. *)
Definition table_overwriting_0 : parser :=
  [OInt 0; OInt 1] ++ line 7 65535 Free ++
  [OInt 1; OInt 1] ++ line 0 65535 Free ++ [OCmd (js "trailer")].

(** A table whose second subsection is declared at 1 and shows the
    bug pattern, after object 1 has been populated. *)
Definition table_second_subsection_at_1 : parser :=
  [OInt 1; OInt 1] ++ line 17 0 Uncompressed ++
  [OInt 1; OInt 2] ++ line 0 65535 Free ++ line 40 0 Uncompressed ++
  [OCmd (js "trailer")].

End XRef.

(** ** Dict (pdf.js, lines 83-100) *)

Module Dict.

(** A Dict keeps the value of key [k] in its own property ["$" + k];
    [props] lists the keys without the prefix. *)
Definition t : Type := list (jsstring * obj).

Fixpoint assoc (key : jsstring) (d : t) : option obj :=
  match d with
  | [] => None
  | (k, v) :: d' => if jsstring_eqb k key then Some v else assoc key d'
  end.

(** [get: function(key) { return this["$" + key]; }] *)
Definition get (d : t) (key : jsstring) : obj :=
  match assoc key d with
  | Some v => v
  | None => OUndefined
  end.

(** [contains: function(key) { return ("$" + key) in this; }] *)
Definition contains (d : t) (key : jsstring) : bool :=
  match assoc key d with
  | Some _ => true
  | None => false
  end.

(** [set: function(key, value) { this["$" + key] = value; }] *)
Definition set (d : t) (key : jsstring) (value : obj) : t :=
  (key, value) :: d.

(** What the property [d.pname] evaluates to. Own properties all
    carry the ["$"] prefix; everything else comes from
    [constructor.prototype = { get, set, contains }]. *)
Inductive property : Type :=
| PValue (v : obj)
| PGet
| PSet
| PContains
| PUndefined.

Definition property_of (d : t) (pname : jsstring) : property :=
  match pname with
  | 36 :: key =>                       (* "$..." *)
      match assoc key d with
      | Some v => PValue v
      | None => PUndefined
      end
  | _ =>
      if jsstring_eqb pname (js "get") then PGet
      else if jsstring_eqb pname (js "set") then PSet
      else if jsstring_eqb pname (js "contains") then PContains
      else PUndefined
  end.

(** The method call [d.pname(arg)] with one argument: the value
    returned and the dictionary afterwards. Calling something that is
    not a function is a TypeError. *)
Definition invoke (d : t) (pname : jsstring) (arg : jsstring)
  : outcome (obj * t) :=
  match property_of d pname with
  | PGet => Ok (get d arg, d)
  | PContains => Ok (OBool (contains d arg), d)
  | PSet => Ok (OUndefined, set d arg OUndefined)
  | PValue _ => Throw (TypeError "property is not a function")
  | PUndefined => Throw (TypeError "undefined is not a function")
  end.

End Dict.

(** ** Linearization (pdf.js, lines 565-639) and the
       [PDFDoc.linearization] getter (lines 727-737) *)

Module Linearization.

Import Parser.

(** [v > 0] on a number *)
Definition positive (v : obj) : bool :=
  match v with
  | OInt z => 0 <? z
  | OReal q => 0 <? Qnum q
  | _ => false
  end.

Record t := mk { linDict : obj }.

(** The constructor: four [getObj] calls, then the check of the
    [Linearized] key through [this.linDict.lookup]. *)
Definition new (p : Parser.t) : outcome t :=
  let '(obj1, p) := getObj p in
  let '(obj2, p) := getObj p in
  let '(obj3, p) := getObj p in
  let '(d, p) := getObj p in
  match d with
  | ODict props =>
      if IsInt obj1 && IsInt obj2 && IsCmd obj3 (js "obj") then
        match Dict.invoke props (js "lookup") (js "Linearized") with
        | Throw e => Throw e
        | Ok (o, props) =>
            if negb (IsNum o && positive o) then Ok (mk ONull)
            else Ok (mk (ODict props))
        end
      else Ok (mk d)
  | _ => Ok (mk d)
  end.

(** [getInt(name)]. The identifier [length] in [return length] and
    the function [error] are bound nowhere in pdf.js: evaluating
    either is a ReferenceError. *)
Definition getInt (l : t) (name : jsstring) : outcome obj :=
  match linDict l with
  | ODict props =>
      match Dict.invoke props (js "lookup") name with
      | Throw e => Throw e
      | Ok (o, _) =>
          if IsInt o && positive o then Throw (ReferenceError "length")
          else Throw (ReferenceError "error")
      end
  | _ => Throw (ReferenceError "error")
  end.

(** [getHint(index)]; a Linearization object has no [error] method,
    so [this.error(...)] is a TypeError. *)
Definition getHint (l : t) (index : nat) : outcome obj :=
  match linDict l with
  | ODict props =>
      match Dict.invoke props (js "lookup") (js "H") with
      | Throw e => Throw e
      | Ok (OArr items, _) =>
          if (2 <=? Z.of_nat (List.length items)) then
            match nth_error items index with
            | Some o2 => if IsInt o2 && positive o2 then Ok o2
                         else Throw (TypeError "this.error is not a function")
            | None => Throw (TypeError "this.error is not a function")
            end
          else Throw (TypeError "this.error is not a function")
      | Ok _ => Throw (TypeError "this.error is not a function")
      end
  | _ => Throw (TypeError "this.error is not a function")
  end.

(** [get length()] *)
Definition length (l : t) : outcome obj :=
  if negb (IsDict (linDict l)) then Ok (OInt 0)
  else getInt l (js "L").

Definition objectNumberFirst (l : t) := getInt l (js "O").
Definition endFirst (l : t) := getInt l (js "E").
Definition numPages (l : t) := getInt l (js "N").
Definition mainXRefEntriesOffset (l : t) := getInt l (js "T").
Definition pageFirst (l : t) := getInt l (js "P").
Definition hintsOffset (l : t) := getHint l 0.
Definition hintsLength (l : t) := getHint l 1.

(** [a != b] between the value of [linearization.length] and the
    stream length, a number. *)
Definition differs (v : obj) (len : Z) : bool :=
  match v with
  | OInt z => negb (z =? len)
  | _ => true
  end.

(** The getter [PDFDoc.linearization]: [None] is the value [false]
    (no linearization); [stream_length] is [this.stream.length] and
    [p] the objects at the head of the stream. *)
Definition PDFDoc_linearization (stream_length : Z) (p : Parser.t)
  : outcome (option t) :=
  if stream_length =? 0 then Ok None
  else
    match new p with
    | Throw e => Throw e
    | Ok l =>
        match length l with
        | Throw e => Throw e
        | Ok v => if differs v stream_length then Ok None else Ok (Some l)
        end
    end.

(** The objects [Parser.getObj] returns for a document that starts
    with [1 0 obj << /Linearized 1 /L 5 /N -3 >>]. The lexer answers
    [<<] with [new Cmd(ch)] where [ch] is the one character ["<"]
    (pdf.js, lines 415-420), and [>>] with the command [">"]; neither is
    the command ["<<"] that opens the dictionary branch of the parser
    (line 504), so the parser hands every token through as a simple
    object and the fourth object is the command ["<"]. *)
Definition linearized_document : Parser.t :=
  [OInt 1; OInt 0; OCmd (js "obj");
   OCmd (js "<");
   OName (js "Linearized"); OInt 1;
   OName (js "L"); OInt 5;
   OName (js "N"); OInt (-3);
   OCmd (js ">")].

End Linearization.

(** ** Interpreter.interpretHelper (pdf.js, lines 803-847) *)

Module Interpreter.

(** The argument of [beginDrawing]. *)
Record box := mkBox { x : Z; y : Z; width : Z; height : Z }.

(** A call the interpreter makes on the sink [gfx]. *)
Inductive call : Type :=
| BeginDrawing (b : box)
| Apply (cmd : jsstring) (args : list obj)     (* [fn.apply(gfx, args)] *)
| EndDrawing.

(** The sink as the interpreter reads it: [gfx[cmd]] for the
    function-valued properties of [gfx], each with its declared
    number of parameters ([fn.length]); [None] when [gfx[cmd]] is
    undefined or is not a function (a data property: the loop then
    ends in a throw as well, from [this.error] or from [fn.apply]). *)
Definition sink : Type := jsstring -> option nat.

(** How a run ends. [Diverged]: a MockParser whose array holds no EOF
    returns [undefined] for ever and the loop pushes it for ever. *)
Inductive status : Type :=
| Returned (args : list obj)       (* the operand stack at the end *)
| Threw (e : exn)
| Diverged.

(** [this.error(what)] is [throw new Error(what)]; pdf.js rebinds the
    global [Error] to a plain object (line 164), so the [new] itself
    throws. Either way the call never returns. *)
Definition error (what : string) : exn :=
  TypeError "Error is not a constructor".

(** [cmd[0] != "$"] *)
Definition not_dollar (cmd : jsstring) : bool :=
  match cmd with
  | c :: _ => negb (c =? 36)
  | [] => true
  end.

(** The loop [while (!IsEOF(obj = parser.getObj())) { ... }] over the
    objects of a MockParser, with the calls made on the sink. *)
Fixpoint interpLoop (gfx : sink) (args : list obj) (objs : list obj)
  : list call * status :=
  match objs with
  | [] => ([], Diverged)
  | o :: rest =>
      if IsEOF o then ([], Returned args)
      else
        match o with
        | OCmd cmd =>
            match gfx cmd with
            | Some arity =>
                if not_dollar cmd then
                  if negb (Nat.eqb arity (List.length args))
                  then ([], Threw (error "Invalid number of arguments"))
                  else
                    let '(calls, st) := interpLoop gfx [] rest in
                    (Apply cmd args :: calls, st)
                else ([], Threw (error "Unknown command"))
            | None => ([], Threw (error "Unknown command"))
            end
        | _ => interpLoop gfx (args ++ [o]) rest
        end
  end.

Definition interpretHelper (gfx : sink) (mediaBox : Z * Z * Z * Z)
           (objs : list obj) : list call * status :=
  let '(m0, m1, m2, m3) := mediaBox in
  let b := mkBox m0 m1 (m2 - m0) (m3 - m1) in
  let '(calls, st) := interpLoop gfx [] objs in
  match st with
  | Returned _ => (BeginDrawing b :: calls ++ [EndDrawing], st)
  | _ => (BeginDrawing b :: calls, st)
  end.

(** The methods of [EchoGraphics.prototype] with their parameter
    counts. *)
Definition method (name : string) (arity : nat) : string * nat :=
  (name, arity).

Definition EchoGraphics_methods : list (string * nat) :=
  [ method "beginDrawing" 1; method "endDrawing" 0;
    method "w" 1; method "d" 2; method "q" 0; method "Q" 0;
    method "cm" 6;
    method "m" 2; method "l" 2; method "c" 6; method "h" 0;
    method "re" 4;
    method "S" 0; method "f" 0; method "B" 0; method "b" 0;
    method "BT" 0; method "ET" 0; method "Tf" 2; method "Td" 2;
    method "Tj" 1;
    method "g" 1; method "RG" 3; method "rg" 3;
    method "print" 1; method "println" 1; method "printdentln" 1;
    method "indent" 0; method "dedent" 0 ].

Fixpoint lookup_method (tbl : list (string * nat)) (cmd : jsstring)
  : option nat :=
  match tbl with
  | [] => None
  | (name, arity) :: tbl' =>
      if jsstring_eqb (js name) cmd then Some arity
      else lookup_method tbl' cmd
  end.

(** What every object inherits from [Object.prototype] (ECMAScript 5,
    section 15.2.4), with the parameter counts; [gfx[cmd]] finds these
    members too. An engine's own additions to [Object.prototype] are
    not listed. *)
Definition Object_prototype_methods : list (string * nat) :=
  [ method "constructor" 1; method "toString" 0;
    method "toLocaleString" 0; method "valueOf" 0;
    method "hasOwnProperty" 1; method "isPrototypeOf" 1;
    method "propertyIsEnumerable" 1 ].

(** An [EchoGraphics] object: the property lookup goes through
    [EchoGraphics.prototype] and then [Object.prototype]. Its own
    properties [out], [indentation] and [indentationStr] hold data. *)
Definition EchoGraphics : sink :=
  lookup_method (EchoGraphics_methods ++ Object_prototype_methods).

(** A command the loop cannot dispatch: no such method, a helper
    name starting with ["$"], or the wrong number of operands. *)
Definition malformed (gfx : sink) (cmd : jsstring) (args : list obj) : Prop :=
  match gfx cmd with
  | None => True
  | Some arity => not_dollar cmd = false \/ arity <> List.length args
  end.

(** The argument [beginDrawing] receives for a media box. *)
Definition box_of (mediaBox : Z * Z * Z * Z) : box :=
  let '(m0, m1, m2, m3) := mediaBox in mkBox m0 m1 (m2 - m0) (m3 - m1).

(** The content stream [1 0 0 RG 100 100 m 200 200 l S]. *)
Definition scenario_B : list obj :=
  [OInt 1; OInt 0; OInt 0; OCmd (js "RG");
   OInt 100; OInt 100; OCmd (js "m");
   OInt 200; OInt 200; OCmd (js "l");
   OCmd (js "S"); OEOF].

(** [100 100 m foo 200 200 l S]: an operator the sink does not have. *)
Definition stream_with_unknown_command : list obj :=
  [OInt 100; OInt 100; OCmd (js "m");
   OCmd (js "foo");
   OInt 200; OInt 200; OCmd (js "l"); OCmd (js "S"); OEOF].

(** [100 100 m 200 l S]: [l] with one operand instead of two. *)
Definition stream_with_missing_operand : list obj :=
  [OInt 100; OInt 100; OCmd (js "m");
   OInt 200; OCmd (js "l");
   OCmd (js "S"); OEOF].

End Interpreter.

(** ** Type1Parser.decodeCharString (fonts.js, lines 1120-1234) *)

Module Type1Parser.

(** A value of [charStringDictionary]: a missing key, [null], a
    command name, or the marker [-1]. *)
Inductive dictval : Type :=
| DUndefined
| DNull
| DName (name : string)
| DMinusOne.

(** [charStringDictionary[value]] for the one-byte commands (key 12
    holds the nested table below and is never read through here). *)
Definition charStringDictionary (value : Z) : dictval :=
  if value =? 1 then DName "hstem"
  else if value =? 3 then DName "vstem"
  else if value =? 4 then DName "vmoveto"
  else if value =? 5 then DName "rlineto"
  else if value =? 6 then DName "hlineto"
  else if value =? 7 then DName "vlineto"
  else if value =? 8 then DName "rrcurveto"
  else if value =? 9 then DNull                 (* closepath *)
  else if value =? 10 then DName "callsubr"
  else if value =? 11 then DName "return"
  else if value =? 13 then DName "hsbw"
  else if value =? 14 then DName "endchar"
  else if value =? 21 then DName "rmoveto"
  else if value =? 22 then DName "hmoveto"
  else if value =? 30 then DName "vhcurveto"
  else if value =? 31 then DName "hvcurveto"
  else DUndefined.

(** [charStringDictionary["12"][escape]] *)
Definition charStringDictionary12 (escape : option Z) : dictval :=
  match escape with
  | None => DUndefined
  | Some e =>
      if e =? 0 then DNull                      (* dotsection *)
      else if e =? 1 then DName "vstem"
      else if e =? 2 then DName "hstem"
      else if e =? 6 then DMinusOne             (* seac *)
      else if e =? 7 then DMinusOne             (* sbw *)
      else if e =? 12 then DName "div"
      else if e =? 16 then DName "callothersubr"
      else if e =? 17 then DName "pop"
      else if e =? 33 then DNull                (* setcurrentpoint *)
      else DUndefined
  end.

(** An element of the decoded charstring. *)
Inductive item : Type :=
| INum (z : Z)
| INaN
| ICmd (name : string).

Definition item_of (n : jsnum) : item :=
  match n with
  | Num z => INum z
  | NaN => INaN
  end.

(** Modelled from the spec: the global function [error] that
    fonts.js calls is declared in no file under src/; the spec makes
    an unimplemented Type1 operator a fatal error for the font, so the
    call ends the decoding with an exception. *)
Definition error (msg : string) : exn := FatalError msg.

(** [aArray[i]] *)
Definition slot (aArray : list Z) (i : Z) : option Z :=
  if i <? 0 then None else nth_error aArray (Z.to_nat i).

(** The body of the [for] loop, from index [i] on. [None] is fuel
    exhaustion, excluded by [decodeCharString_total]. *)
Fixpoint decodeLoop (fuel : nat) (aArray : list Z) (i : Z)
         (charString : list item) : option (outcome (list item)) :=
  let count := Z.of_nat (List.length aArray) in
  if negb (i <? count) then Some (Ok charString)
  else
    match fuel with
    | O => None
    | S fuel' =>
        match slot aArray i with
        | None => Some (Ok charString)          (* not reached: i < count *)
        | Some value =>
            if value <? 32 then
              let i := if value =? 12 then i + 1 else i in
              let command :=
                if value =? 12 then charStringDictionary12 (slot aArray i)
                else charStringDictionary value in
              match command with
              | DUndefined | DNull =>
                  if i <? count
                  then decodeLoop fuel' aArray (i + 1) charString
                  else Some (Ok charString)
              | DMinusOne =>
                  Some (Throw (error "Support for Type1 command is not implemented"))
              | DName name =>
                  decodeLoop fuel' aArray (i + 1) (charString ++ [ICmd name])
              end
            else if value <=? 246 then
              decodeLoop fuel' aArray (i + 1) (charString ++ [INum (value - 139)])
            else if value <=? 250 then
              let i := i + 1 in
              let v := js_add (js_add (Num ((value - 247) * 256))
                                      (num_of_slot (slot aArray i)))
                              (Num 108) in
              decodeLoop fuel' aArray (i + 1) (charString ++ [item_of v])
            else if value <=? 254 then
              let i := i + 1 in
              let v := js_sub (js_sub (Num (- ((value - 251) * 256)))
                                      (num_of_slot (slot aArray i)))
                              (Num 108) in
              decodeLoop fuel' aArray (i + 1) (charString ++ [item_of v])
            else
              let i := i + 1 in
              let byte := num_of_slot (slot aArray i) in
              let high := js_shr byte 1 in
              let i := i + 1 in
              let b2 := num_of_slot (slot aArray i) in
              let i := i + 1 in
              let b3 := num_of_slot (slot aArray i) in
              let i := i + 1 in
              let b4 := num_of_slot (slot aArray i) in
              let v := js_or (Num (js_or (Num (js_or
                         (Num (js_shl (js_sub byte (Num high)) 24))
                         (Num (js_shl b2 16))))
                         (Num (js_shl b3 8))))
                         b4 in
              decodeLoop fuel' aArray (i + 1) (charString ++ [INum v])
        end
    end.

Definition decodeCharString (aArray : list Z) : option (outcome (list item)) :=
  decodeLoop (List.length aArray) aArray 0 [].

(** The big-endian 32-bit two's-complement integer of four bytes. *)
Definition int32_be (b1 b2 b3 b4 : Z) : Z :=
  ToInt32 (b1 * 16777216 + b2 * 65536 + b3 * 256 + b4).

End Type1Parser.

(** ** CFF.getOrderedCharStrings (fonts.js, lines 1430-1452) *)

Module CFF.

Import Type1Parser.

(** An element of [aProperties.glyphs]. *)
Record glyph := mkGlyph { glyph_name : jsstring; data : list item }.

(** An element of the returned array. *)
Record charstring := mkCharstring {
  glyph_of : jsstring;
  unicode : Z;
  charstring_of : list item
}.

(** [!unicode] for a table value: a missing entry and the number 0
    are both falsy. *)
Definition falsy (u : option Z) : bool :=
  match u with
  | None => true
  | Some z => z =? 0
  end.

(** Modelled from the spec: the global function [warn] that fonts.js
    calls is declared in no file under src/; the spec has such a glyph
    "warned and dropped", so the call records its message, kept here as
    the glyph name the message starts with, and returns. *)
Definition warn (glyph : jsstring) (log : list jsstring) : list jsstring :=
  glyph :: log.

(** The comparison function handed to [sort]:
    [function(a, b) { return a.unicode > b.unicode; }], a boolean,
    which [sort] reads as the number 1 or 0. *)
Definition by_unicode (a b : charstring) : Z :=
  if unicode b <? unicode a then 1 else 0.

(** The comparison function [a.unicode - b.unicode], for reference. *)
Definition by_difference (a b : charstring) : Z :=
  unicode a - unicode b.

Section WithTable.

(** [GlyphsUnicode[glyph]]: the glyph-name table is declared in no
    file under src/ and is a parameter here. *)
Variable GlyphsUnicode : jsstring -> option Z.

(** [Array.prototype.sort(comparefn)] of the host engine. *)
Variable Array_sort :
  (charstring -> charstring -> Z) -> list charstring -> list charstring.

(** The [for] loop: the kept glyphs and the glyph names warned
    about, both in input order. *)
Fixpoint collect (aGlyphs : list glyph) : list charstring * list jsstring :=
  match aGlyphs with
  | [] => ([], [])
  | g :: rest =>
      let '(kept, warned) := collect rest in
      let u := GlyphsUnicode (glyph_name g) in
      if falsy u then
        if negb (jsstring_eqb (glyph_name g) (js ".notdef"))
        then (kept, warn (glyph_name g) warned)
        else (kept, warned)
      else
        (mkCharstring (glyph_name g) (default 0 u) (data g) :: kept, warned)
  end.

Definition getOrderedCharStrings (aGlyphs : list glyph)
  : list charstring * list jsstring :=
  let '(charstrings, warned) := collect aGlyphs in
  (Array_sort by_unicode charstrings, warned).

End WithTable.

(** Two sorting procedures an engine may use. Both are insertion
    sorts and both sort correctly under a comparison function that
    returns a negative, zero or positive number; they differ in which
    sign they test. *)

(** Places [x] before the first element that compares greater than
    it ([comparefn(y, x) > 0]). *)
Fixpoint insert_if_greater {A} (cmp : A -> A -> Z) (x : A) (l : list A) : list A :=
  match l with
  | [] => [x]
  | y :: l' => if 0 <? cmp y x then x :: y :: l'
               else y :: insert_if_greater cmp x l'
  end.

Definition sort_if_greater {A} (cmp : A -> A -> Z) (l : list A) : list A :=
  fold_left (fun acc x => insert_if_greater cmp x acc) l [].

(** Places [x] before the first element it compares less than
    ([comparefn(x, y) < 0]). *)
Fixpoint insert_if_less {A} (cmp : A -> A -> Z) (x : A) (l : list A) : list A :=
  match l with
  | [] => [x]
  | y :: l' => if cmp x y <? 0 then x :: y :: l'
               else y :: insert_if_less cmp x l'
  end.

Definition sort_if_less {A} (cmp : A -> A -> Z) (l : list A) : list A :=
  fold_left (fun acc x => insert_if_less cmp x acc) l [].

(** Ascending order of the code points. *)
Definition ascending (l : list charstring) : Prop :=
  Sorted (fun a b => unicode a <= unicode b) l.

(** Two entries of the glyph list, enough for an example. *)
Definition table_AB (name : jsstring) : option Z :=
  if jsstring_eqb name (js "A") then Some 65
  else if jsstring_eqb name (js "B") then Some 66
  else None.

Definition glyphs_B_A : list glyph :=
  [mkGlyph (js "B") [ICmd "endchar"]; mkGlyph (js "A") [ICmd "endchar"]].

End CFF.

(** * Further components *)

(** ** Lexer: numbers, strings, hex strings and [getObj]
       (pdf.js, lines 221-333 and 360-455) *)

Module LexerFull.

Import Lexer.

(** What [Lexer.getObj] returns. A number is kept as the text handed
    to [parseFloat]: the value returned is [parseFloat(text)]. *)
Inductive lexeme : Type :=
| LToken (t : token)             (* a Name or Cmd object, a boolean, null *)
| LNumber (text : jsstring)
| LString (s : jsstring)
| LError
| LEOF.

Definition is_digit (c : Z) : bool := (48 <=? c) && (c <=? 57).

(** The [do ... while (true)] loop of [getNumber]. *)
Fixpoint getNumber_loop (fuel : nat) (st : state) (floating : bool)
         (str : jsstring) : option (jsstring * state) :=
  match fuel with
  | O => None
  | S fuel' =>
      let '(ch, s1) := Stream.getChar (stream st) in
      let st1 := with_stream st s1 in
      match ch with
      | Some c =>
          if (c =? 46) && negb floating then          (* "." *)
            getNumber_loop fuel' st1 true (str ++ [c])
          else if c =? 45 then                        (* "-" *)
            getNumber_loop fuel' (error "Badly formated number" st1)
                           floating str
          else if is_digit c then
            getNumber_loop fuel' st1 floating (str ++ [c])
          else if (c =? 101) || (c =? 69) then        (* "e", "E" *)
            getNumber_loop fuel' st1 true str
          else Some (str, with_stream st1 (Stream.putBack s1))
      | None => Some (str, with_stream st1 (Stream.putBack s1))
      end
  end.

(** [isNaN(parseFloat(str))] for the texts [getNumber] can build (a
    first character among the digits, [+], [-] and [.], then digits
    and dots): the text is a number when, after a leading sign, it
    starts with a digit or with a dot and a digit. *)
Definition parseFloat_isNaN (str : jsstring) : bool :=
  let t := match str with
           | c :: r => if (c =? 43) || (c =? 45) then r else str
           | [] => []
           end in
  match t with
  | c :: r =>
      if is_digit c then false
      else if c =? 46 then
             match r with
             | d :: _ => negb (is_digit d)
             | [] => true
             end
      else true
  | [] => true
  end.

(** [getNumber(ch)] *)
Definition getNumber (ch : Z) (st : state) : option (lexeme * state) :=
  match getNumber_loop (getName_fuel st) st false [ch] with
  | None => None
  | Some (str, st) =>
      if parseFloat_isNaN str then Some (LError, st)
      else Some (LNumber str, st)
  end.

(** The [do ... while (!done)] loop of [getString]. [numParen] and
    [c] are declared nowhere (the function declares [numParent]), and
    a Lexer has no method [getChar]: reading them throws. *)
Fixpoint getString_loop (fuel : nat) (st : state) (str : jsstring)
  : option (outcome (jsstring * state)) :=
  match fuel with
  | O => None
  | S fuel' =>
      let '(ch, s1) := Stream.getChar (stream st) in
      let st1 := with_stream st s1 in
      match ch with
      | None => Some (Ok (str, error "Unterminated string" st1))
      | Some c =>
          if c =? 40 then Some (Throw (ReferenceError "numParen"))
          else if c =? 41 then Some (Throw (ReferenceError "numParen"))
          else if c =? 92 then
            let '(ch2, s2) := Stream.getChar s1 in
            let st2 := with_stream st1 s2 in
            match ch2 with
            | None => Some (Ok (str, error "Unterminated string" st2))
            | Some e =>
                if e =? 110 then getString_loop fuel' st2 (str ++ [10])
                else if e =? 114 then getString_loop fuel' st2 (str ++ [13])
                else if e =? 116 then getString_loop fuel' st2 (str ++ [9])
                else if e =? 98 then getString_loop fuel' st2 (str ++ [8])
                else if e =? 102 then getString_loop fuel' st2 (str ++ [12])
                else if (e =? 92) || (e =? 40) || (e =? 41)
                then Some (Throw (ReferenceError "c"))
                else if (48 <=? e) && (e <=? 55) then
                  let x := e - 48 in
                  match Stream.lookChar s2 with
                  | Some d =>
                      if (48 <=? d) && (d <=? 55)
                      then Some (Throw (TypeError "this.getChar is not a function"))
                      else getString_loop fuel' st2
                             (str ++ [fromCharCode (Some x)])
                  | None => getString_loop fuel' st2
                              (str ++ [fromCharCode (Some x)])
                  end
                else if e =? 13 then
                  match Stream.lookChar s2 with
                  | Some 10 =>
                      getString_loop fuel'
                        (with_stream st2 (snd (Stream.getChar s2))) str
                  | _ => getString_loop fuel' st2 str
                  end
                else if e =? 10 then getString_loop fuel' st2 str
                else getString_loop fuel' st2 (str ++ [e])
            end
          else getString_loop fuel' st1 (str ++ [c])
      end
  end.

(** [getString(ch)] *)
Definition getString (ch : Z) (st : state)
  : option (outcome (lexeme * state)) :=
  match getString_loop (getName_fuel st) st [ch] with
  | None => None
  | Some (Throw e) => Some (Throw e)
  | Some (Ok (str, st)) =>
      match str with
      | [] => Some (Ok (LEOF, st))
      | _ => Some (Ok (LString str, st))
      end
  end.

(** [getHexString(ch)]. Strings have no method [toCharCode], so the
    first character that is neither [>] nor the end of the data throws;
    no path reaches a second turn of the loop. *)
Definition getHexString (st : state) : outcome (lexeme * state) :=
  let '(ch, s1) := Stream.getChar (stream st) in
  let st1 := with_stream st s1 in
  match ch with
  | Some 62 => Ok (LString [], st1)
  | None => Ok (LString [], error "Unterminated hex string" st1)
  | Some _ => Throw (TypeError "ch.toCharCode is not a function")
  end.

(** The loop of [getObj] that skips white space and comments: the
    first character of the token, consumed, or [None] at the end of the
    data. *)
Fixpoint skip_loop (fuel : nat) (st : state) (comment : bool)
  : option (option Z * state) :=
  match fuel with
  | O => None
  | S fuel' =>
      let '(ch, s1) := Stream.getChar (stream st) in
      let st1 := with_stream st s1 in
      match ch with
      | None => Some (None, st1)
      | Some c =>
          if comment then
            skip_loop fuel' st1 (negb ((c =? 13) || (c =? 10)))
          else if c =? 37 then skip_loop fuel' st1 true
          else if negb (specialChars c =? 1) then Some (Some c, st1)
          else skip_loop fuel' st1 false
      end
  end.

Definition lift (r : option (outcome (token * state)))
  : option (outcome (lexeme * state)) :=
  match r with
  | None => None
  | Some (Throw e) => Some (Throw e)
  | Some (Ok (t, st)) => Some (Ok (LToken t, st))
  end.

Definition new_Cmd (text : jsstring) (st : state) : outcome (lexeme * state) :=
  let '(r, st) := new (HCmd text) st in Ok (LToken (TRef r), st).

(** [getObj()] *)
Definition getObj (st : state) : option (outcome (lexeme * state)) :=
  match skip_loop (getName_fuel st) st false with
  | None => None
  | Some (None, st) => Some (Ok (LEOF, st))
  | Some (Some ch, st) =>
      if is_digit ch || (ch =? 43) || (ch =? 45) || (ch =? 46) then
        match getNumber ch st with
        | None => None
        | Some r => Some (Ok r)
        end
      else if ch =? 40 then getString ch st
      else if ch =? 47 then lift (getName st)
      else if (ch =? 91) || (ch =? 93) then Some (new_Cmd [ch] st)
      else if ch =? 60 then
        match Stream.lookChar (stream st) with
        | Some 60 =>
            Some (new_Cmd [60]
                    (with_stream st (snd (Stream.getChar (stream st)))))
        | _ => Some (getHexString st)
        end
      else if ch =? 62 then
        match Stream.lookChar (stream st) with
        | Some 62 =>
            Some (new_Cmd [62]
                    (with_stream st (snd (Stream.getChar (stream st)))))
        | _ => Some (Ok (LError, error "Illegal character" st))
        end
      else if (ch =? 41) || (ch =? 123) || (ch =? 125)
      then Some (Ok (LError, error "Illegal character" st))
      else lift (getObj_command ch st)
  end.

(** The text of a lexeme that is a Cmd object. *)
Definition cmd_text (st : state) (l : lexeme) : option jsstring :=
  match l with
  | LToken (TRef r) =>
      match nth_error (heap st) r with
      | Some (HCmd s) => Some s
      | _ => None
      end
  | _ => None
  end.

(** A character that ends a name or command. *)
Definition delimiter (c : Z) : bool := negb (specialChars c =? 0).

(** White space. *)
Definition white (c : Z) : bool := specialChars c =? 1.

(** The stream at position [p] of the bytes [bs], nothing printed. *)
Definition at_pos (bs : list Z) (p : Z) (h : list heapobj) : state :=
  mkState (Stream.mk bs p) [] h.

(** A code unit the stream can deliver: [Stream] holds bytes. *)
Definition byte (c : Z) : Prop := 0 <= c < 256.

(** What follows a token: the end of the data or a character [c] with
    [stop c]. *)
Definition ends_with (stop : Z -> bool) (rest : list Z) : Prop :=
  match rest with
  | [] => True
  | c :: _ => byte c /\ stop c = true
  end.

(** A character of a name that is neither a delimiter nor the escape
    character [#]. *)
Definition name_char (c : Z) : Prop :=
  byte c /\ specialChars c = 0 /\ c <> 35.

(** A character of a command that is not a delimiter. *)
Definition cmd_char (c : Z) : Prop := byte c /\ specialChars c = 0.

End LexerFull.

(** ** Content streams made of operator statements *)

Module Statements.

Import Interpreter.







End Statements.

(** ** Lexer: the characters of numbers and of blank runs *)

Module LexerChars.

Import Lexer LexerFull.

(** A white-space byte. *)
Definition white_char (c : Z) : Prop := byte c /\ white c = true.

(** A byte inside a comment: anything but the two line ends. *)
Definition comment_char (c : Z) : Prop := byte c /\ c <> 13 /\ c <> 10.

(** A character [getNumber] goes on after, apart from the dot: a
    digit, an exponent letter or a minus sign. *)
Definition num_char (c : Z) : Prop :=
  byte c /\ (is_digit c = true \/ c = 101 \/ c = 69 \/ c = 45).

(** A character that ends a number. *)
Definition number_end (c : Z) : bool :=
  negb (is_digit c || (c =? 46) || (c =? 45) || (c =? 101) || (c =? 69)).

(** A character of a string that is neither a parenthesis nor the
    backslash. *)
Definition string_char (c : Z) : Prop :=
  byte c /\ c <> 40 /\ c <> 41 /\ c <> 92.

(** The exceptions [getString] can end in. *)
Definition getString_exceptions : list exn :=
  [ ReferenceError "numParen"; ReferenceError "c";
    TypeError "this.getChar is not a function" ].

End LexerChars.

(** ** Parser (pdf.js, lines 461-563) *)

(** [IsName(v)]: [v instanceof Name] *)
Definition IsName (v : obj) : bool :=
  match v with
  | OName _ => true
  | _ => false
  end.

(** [IsString(v)]: [typeof v == "string"] *)
Definition IsString (v : obj) : bool :=
  match v with
  | OStr _ => true
  | _ => false
  end.

Module ParserFull.

(** The lexer as the parser uses it: the objects its successive
    [getObj()] calls return, then [EOF] for ever. *)
Definition lexer : Type := list obj.

Definition lexer_getObj (l : lexer) : obj * lexer := Parser.getObj l.

Record t := mk {
  lex : lexer;
  allowStreams : bool;
  inlineImg : Z;
  buf1 : obj;
  buf2 : obj
}.

(** [refill()] *)
Definition refill (p : t) : t :=
  let '(o1, l1) := lexer_getObj (lex p) in
  let '(o2, l2) := lexer_getObj l1 in
  mk l2 (allowStreams p) (inlineImg p) o1 o2.

(** [new Parser(lexer, allowStreams)] *)
Definition new (l : lexer) (allow : bool) : t :=
  refill (mk l allow 0 OUndefined OUndefined).

(** [shift()]. A Lexer has no method [skipChar], so a command [ID]
    in [buf2] ends the call in a TypeError before [inlineImg] is
    set. *)
Definition shift (p : t) : outcome t :=
  if 0 <? inlineImg p then
    let img := if inlineImg p <? 2 then inlineImg p + 1 else 0 in
    if 0 <? img
    then Ok (mk (lex p) (allowStreams p) img (buf2 p) ONull)
    else
      let '(o, l) := lexer_getObj (lex p) in
      Ok (mk l (allowStreams p) img (buf2 p) o)
  else if IsCmd (buf2 p) (js "ID")
  then Throw (TypeError "this.lexer.skipChar is not a function")
  else
    let '(o, l) := lexer_getObj (lex p) in
    Ok (mk l (allowStreams p) (inlineImg p) (buf2 p) o).

(** [getObj()]. The fuel bounds the depth of the recursion and the
    turns of the array loop; [None] stands for a call that does not
    come back (the recursion goes on until the engine runs out of
    stack). A Parser has no method [error], and the functions
    [error] and [shift] and the variable [buf1] that the dictionary
    branch names without [this.] are declared nowhere. *)
Fixpoint getObj (fuel : nat) (p : t) : option (outcome (obj * t)) :=
  match fuel with
  | O => None
  | S fuel' =>
      let p := if inlineImg p =? 2 then refill p else p in
      if IsCmd (buf1 p) (js "[") then
        (fix loop (n : nat) (p : t) (array : list obj) {struct n}
           : option (outcome (obj * t)) :=
           match n with
           | O => None
           | S n' =>
               if negb (IsCmd (buf1 p) (js "]")) && negb (IsEOF (buf1 p))
               then
                 match getObj fuel' p with
                 | None => None
                 | Some (Throw e) => Some (Throw e)
                 | Some (Ok (o, p')) => loop n' p' (array ++ [o])
                 end
               else if IsEOF (buf1 p)
               then Some (Throw (TypeError "this.error is not a function"))
               else
                 match shift p with
                 | Throw e => Some (Throw e)
                 | Ok p' => Some (Ok (OArr array, p'))
                 end
           end) fuel' p []
      else if IsCmd (buf1 p) (js "<<") then
        match shift p with
        | Throw e => Some (Throw e)
        | Ok p =>
            if negb (IsCmd (buf1 p) (js ">>")) && negb (IsEOF (buf1 p))
            then
              if negb (IsName (buf1 p))
              then Some (Throw (ReferenceError "error"))
              else Some (Throw (ReferenceError "buf1"))
            else if IsEOF (buf1 p)
            then Some (Throw (ReferenceError "error"))
            else if allowStreams p && IsCmd (buf2 p) (js "stream")
            then Some (Ok (OError, p))               (* makeStream() *)
            else
              match shift p with
              | Throw e => Some (Throw e)
              | Ok p' => Some (Ok (ODict [], p'))
              end
        end
      else if IsInt (buf1 p) then
        let num := buf1 p in
        match shift p with
        | Throw e => Some (Throw e)
        | Ok p =>
            if IsInt (buf1 p) && IsCmd (buf2 p) (js "R") then
              let ref := ORef (int_of num) (int_of (buf1 p)) in
              match shift p with
              | Throw e => Some (Throw e)
              | Ok p =>
                  match shift p with
                  | Throw e => Some (Throw e)
                  | Ok p => Some (Ok (ref, p))
                  end
              end
            else Some (Ok (num, p))
        end
      else
        (* a string goes through [decrypt], which returns it as it
           is; any other object is returned as it is *)
        let o := buf1 p in
        match shift p with
        | Throw e => Some (Throw e)
        | Ok p => Some (Ok (o, p))
        end
  end.

(** A token that the parser hands on as it is when it is not part of
    an indirect reference: no array or dictionary opening, no [ID],
    no [R]. *)
Definition plain (o : obj) : Prop :=
  IsCmd o (js "[") = false /\ IsCmd o (js "<<") = false /\
  IsCmd o (js "ID") = false /\ IsCmd o (js "R") = false.

End ParserFull.

(** ** FontsUtils, [decrypt] and [CFF.encodeNumber] (fonts.js) *)

(** [a ^ b] and [a & b] on numbers with integral values. *)
Definition js_xor (a b : Z) : Z := Z.lxor (ToInt32 a) (ToInt32 b).
Definition js_and (a b : Z) : Z := Z.land (ToInt32 a) (ToInt32 b).

Module FontsUtils.

(** What a [Uint8Array] keeps of a number with an integral value. *)
Definition ToUint8 (z : Z) : Z := z mod 256.

(** [integerToBytes] returns a number for one byte, an array for two
    and four bytes, and [undefined] for every other count. *)
Inductive bytes_result : Type :=
| OneByte (b : Z)
| Bytes (l : list Z)
| NoBytes.

(** [integerToBytes(aValue, aBytesCount)] (lines 631-644): the values
    go through the shared [Uint8Array] and are copied out of it. *)
Definition integerToBytes (aValue aBytesCount : Z) : bytes_result :=
  if aBytesCount =? 1 then OneByte (ToUint8 aValue)
  else if aBytesCount =? 2 then
    Bytes [ToUint8 (js_shr (Num aValue) 8); ToUint8 aValue]
  else if aBytesCount =? 4 then
    Bytes [ToUint8 (js_shr (Num aValue) 24); ToUint8 (js_shr (Num aValue) 16);
           ToUint8 (js_shr (Num aValue) 8); ToUint8 aValue]
  else NoBytes.

(** [bytesToInteger(aBytesArray)] (lines 646-651) *)
Definition bytesToInteger (aBytesArray : list Z) : Z :=
  fold_left (fun value b => js_shl (Num value) 8 + b) aBytesArray 0.

End FontsUtils.

Module Type1Decrypt.

Definition c1 : Z := 52845.
Definition c2 : Z := 22719.
Definition kEexecEncryptionKey : Z := 55665.
Definition kCharStringsEncryptionKey : Z := 4330.

(** [r = ((value + r) * c1 + c2) & ((1 << 16) - 1)] *)
Definition next_r (value r : Z) : Z :=
  js_and ((value + r) * c1 + c2) (js_shl (Num 1) 16 - 1).

(** The loop of [decrypt] (lines 1074-1078): the decrypted bytes. *)
Fixpoint decrypt_loop (aStream : list Z) (r : Z) : list Z :=
  match aStream with
  | [] => []
  | value :: rest =>
      js_xor value (js_shr (Num r) 8) :: decrypt_loop rest (next_r value r)
  end.

(** The value of [r] when the loop ends. *)
Fixpoint key_after (aStream : list Z) (r : Z) : Z :=
  match aStream with
  | [] => r
  | value :: rest => key_after rest (next_r value r)
  end.

(** [array.slice(start)] for an integral [start]: a negative one
    counts from the end. *)
Definition slice (l : list Z) (start : Z) : list Z :=
  if start <? 0
  then skipn (List.length l - Z.to_nat (- start)) l
  else skipn (Z.to_nat start) l.

(** [decrypt(aStream, aKey, aDiscardNumber)] (lines 1068-1080) *)
Definition decrypt (aStream : list Z) (aKey aDiscardNumber : Z) : list Z :=
  slice (decrypt_loop aStream aKey) aDiscardNumber.

End Type1Decrypt.

Module CFFEncode.

(** How [encodeNumber] ends: with an array, in the ReferenceError of
    the undeclared [Value], or in the call
    [error("Value: " + aValue + " is not allowed")]. *)
Inductive encoded : Type :=
| Encoded (l : list Z)
| ValueUndeclared
| NotAllowed (aValue : Z).

(** [encodeNumber(aValue)] (fonts.js, lines 1419-1428). The array
    literal of the second branch evaluates [Value >> 16], and
    [Value] is declared nowhere. *)
Definition encodeNumber (aValue : Z) : encoded :=
  if (-32768 <=? aValue) && (aValue <=? 32767) then
    Encoded [28; js_shr (Num aValue) 8; js_and aValue 255]
  else if (-2147483647 - 1 <=? aValue) && (aValue <=? 2147483647) then
    ValueUndeclared
  else NotAllowed aValue.

End CFFEncode.

(** ** XRef.readXRef (pdf.js, lines 697-713) *)

Module XRefRead.

Import Parser XRef.

(** [IsStream(v)]: [v instanceof Stream]. No object that
    [Parser.getObj] returns is a Stream: [makeStream] returns
    [Error]. *)
Definition IsStream (v : obj) : bool := false.

(** [readXRef(stream, startXRef)], from the parser it creates at
    [startXRef]. [readXRefStream] sets [this.ok] and returns true. *)
Definition readXRef (entries : gmap Z entry) (p : parser) : option result :=
  let '(o, p) := getObj p in
  if IsCmd o (js "xref") then readXRefTable entries p
  else if IsInt o then
    let '(o2, p) := getObj p in
    if negb (IsInt o2) then Some (mkResult false entries false)
    else
      let '(o3, p) := getObj p in
      if negb (IsCmd o3 (js "obj")) then Some (mkResult false entries false)
      else
        let '(o4, p) := getObj p in
        if negb (IsStream o4) then Some (mkResult false entries false)
        else Some (mkResult true entries true)
  else Some (mkResult false entries false).

End XRefRead.

(** ** CFF.createCFFIndexHeader (fonts.js, lines 1383-1417) *)

Module CFFIndex.

Import FontsUtils.

(** What the loop [for (j = 0; j < bytes.length; j++)
    data.push(bytes[j])] pushes: the values of an array; a number has
    no [length], so the loop does not run. *)
Definition pushed (r : bytes_result) : list Z :=
  match r with
  | Bytes l => l
  | OneByte _ | NoBytes => []
  end.

(** An object of the index by its values: the bytes of an array
    (read as [aObjects[i][j]] when [aIsByte]) or the char codes of a
    string (read with [charCodeAt]). *)
Definition object : Type := list Z.

(** The loop over [i = 0 .. count] that pushes the offsets: the
    offset of each object, then one more after the last object. *)
Fixpoint offsets_loop (aObjects : list object) (relativeOffset : Z) : list Z :=
  pushed (integerToBytes relativeOffset 4) ++
  match aObjects with
  | [] => []
  | o :: rest =>
      offsets_loop rest (relativeOffset + Z.of_nat (List.length o))
  end.

Definition createCFFIndexHeader (aObjects : list object) : list Z :=
  let count := Z.of_nat (List.length aObjects) in
  if count =? 0 then [0; 0; 0]
  else
    pushed (integerToBytes count 2) ++ [4]
    ++ offsets_loop aObjects 1
    ++ List.concat aObjects.

(** The sum of the lengths of the objects. *)
Definition total_length (l : list object) : Z :=
  Z.of_nat (List.length (List.concat l)).

End CFFIndex.
(** * Theorems *)

(** ** Stream.find *)

Module StreamFacts.

Lemma isPrefix_iff needle : forall str,
  isPrefix needle str = true <-> exists post, str = needle ++ post.
Proof.
  induction needle as [|a needle IH]; intros str; simpl.
  - split; [intros _; exists str; reflexivity | reflexivity].
  - destruct str as [|b str].
    + split; [discriminate | intros [post H]; discriminate].
    + rewrite andb_true_iff, Z.eqb_eq, IH. split.
      * intros [-> [post ->]]. exists post. reflexivity.
      * intros [post H]. injection H as -> ->.
        split; [reflexivity | exists post; reflexivity].
Qed.

Lemma occurs_at_0 str needle :
  occurs_at str needle 0 <-> isPrefix needle str = true.
Proof.
  rewrite isPrefix_iff. split.
  - intros (pre & post & -> & Hk). destruct pre; [|simpl in Hk; lia].
    exists post. reflexivity.
  - intros [post ->]. exists [], post. split; reflexivity.
Qed.

Lemma occurs_at_cons c str needle k :
  0 < k -> occurs_at (c :: str) needle k <-> occurs_at str needle (k - 1).
Proof.
  intros Hk. split.
  - intros (pre & post & Heq & Hl).
    destruct pre as [|c' pre]; [simpl in Hl; lia|].
    simpl in Heq. injection Heq as -> ->. exists pre, post.
    split; [reflexivity|]. simpl in Hl. lia.
  - intros (pre & post & -> & Hl). exists (c :: pre), post.
    split; [reflexivity|]. simpl. lia.
Qed.

Lemma occurs_at_nonneg str needle k : occurs_at str needle k -> 0 <= k.
Proof. intros (pre & post & _ & <-). lia. Qed.

Lemma occurs_at_bound str needle k :
  occurs_at str needle k ->
  k + Z.of_nat (List.length needle) <= Z.of_nat (List.length str).
Proof. intros (pre & post & -> & <-). rewrite !length_app. lia. Qed.

(** An occurrence in a nonempty string is at the head or in the tail. *)
Ltac split_occurrence Hj Hp :=
  match type of Hj with
  | occurs_at (_ :: _) _ ?j =>
      destruct (Z.eq_dec j 0) as [-> | ?];
      [ try (apply occurs_at_0 in Hj; congruence); try lia
      | pose proof (occurs_at_nonneg _ _ _ Hj);
        apply occurs_at_cons in Hj; [|lia] ]
  end.

(** [indexOf_from] returns the least offset of an occurrence, shifted
    by [k0], or -1 when there is none. *)
Lemma indexOf_from_spec needle : forall str k0, 0 <= k0 ->
  let r := indexOf_from k0 str needle in
  (r = -1 /\ forall j, ~ occurs_at str needle j) \/
  (k0 <= r /\ occurs_at str needle (r - k0) /\
   forall j, occurs_at str needle j -> r - k0 <= j).
Proof.
  induction str as [|c str IH]; intros k0 Hk0; simpl.
  - destruct (isPrefix needle []) eqn:Hp.
    + right. split; [lia|]. split.
      * replace (k0 - k0) with 0 by lia. apply occurs_at_0. exact Hp.
      * intros j Hj. apply occurs_at_nonneg in Hj. lia.
    + left. split; [reflexivity|]. intros j Hj.
      assert (j = 0) as ->.
      { pose proof (occurs_at_nonneg _ _ _ Hj).
        apply occurs_at_bound in Hj. simpl in Hj. lia. }
      apply occurs_at_0 in Hj. congruence.
  - destruct (isPrefix needle (c :: str)) eqn:Hp.
    + right. split; [lia|]. split.
      * replace (k0 - k0) with 0 by lia. apply occurs_at_0. exact Hp.
      * intros j Hj. apply occurs_at_nonneg in Hj. lia.
    + destruct (IH (k0 + 1) ltac:(lia)) as [[Hr Hno] | (Hle & Hocc & Hmin)].
      * left. split; [exact Hr|]. intros j Hj.
        split_occurrence Hj Hp. exact (Hno _ Hj).
      * right. split; [lia|]. split.
        { apply occurs_at_cons; [lia|].
          replace (indexOf_from (k0 + 1) str needle - k0 - 1)
            with (indexOf_from (k0 + 1) str needle - (k0 + 1)) by lia.
          exact Hocc. }
        intros j Hj. split_occurrence Hj Hp.
        specialize (Hmin _ Hj). lia.
Qed.

(** [lastIndexOf_from] returns the greatest offset of an occurrence. *)
Lemma lastIndexOf_from_spec needle : forall str k0, 0 <= k0 ->
  let r := lastIndexOf_from k0 str needle in
  (r = -1 /\ forall j, ~ occurs_at str needle j) \/
  (k0 <= r /\ occurs_at str needle (r - k0) /\
   forall j, occurs_at str needle j -> j <= r - k0).
Proof.
  induction str as [|c str IH]; intros k0 Hk0; simpl.
  - destruct (isPrefix needle []) eqn:Hp.
    + right. split; [lia|]. split.
      * replace (k0 - k0) with 0 by lia. apply occurs_at_0. exact Hp.
      * intros j Hj. apply occurs_at_bound in Hj. simpl in Hj. lia.
    + left. split; [reflexivity|]. intros j Hj.
      assert (j = 0) as ->.
      { pose proof (occurs_at_nonneg _ _ _ Hj).
        apply occurs_at_bound in Hj. simpl in Hj. lia. }
      apply occurs_at_0 in Hj. congruence.
  - destruct (IH (k0 + 1) ltac:(lia)) as [[Hr Hno] | (Hle & Hocc & Hmax)].
    + rewrite Hr. simpl.
      destruct (isPrefix needle (c :: str)) eqn:Hp.
      * right. split; [lia|]. split.
        { replace (k0 - k0) with 0 by lia. apply occurs_at_0. exact Hp. }
        intros j Hj.
        destruct (Z.eq_dec j 0) as [-> | Hne]; [lia|].
        pose proof (occurs_at_nonneg _ _ _ Hj).
        apply occurs_at_cons in Hj; [|lia]. destruct (Hno _ Hj).
      * left. split; [reflexivity|]. intros j Hj.
        split_occurrence Hj Hp. exact (Hno _ Hj).
    + destruct (lastIndexOf_from (k0 + 1) str needle =? -1) eqn:He.
      { apply Z.eqb_eq in He. lia. }
      right. split; [lia|]. split.
      * apply occurs_at_cons; [lia|].
        replace (lastIndexOf_from (k0 + 1) str needle - k0 - 1)
          with (lastIndexOf_from (k0 + 1) str needle - (k0 + 1)) by lia.
        exact Hocc.
      * intros j Hj.
        destruct (Z.eq_dec j 0) as [-> | Hne]; [lia|].
        pose proof (occurs_at_nonneg _ _ _ Hj).
        apply occurs_at_cons in Hj; [|lia]. specialize (Hmax _ Hj). lia.
Qed.

(** The reading loop collects exactly the window and never meets
    [undefined]. *)
Lemma find_read_window : forall n s str,
  (n <> O -> Stream.pos s + Z.of_nat n <= Stream.length s) ->
  Stream.find_read n s str =
  (str ++ List.map
            (fun i => fromCharCode (Stream.byteAt s (Stream.pos s + Z.of_nat i)))
            (seq 0 n),
   Stream.mk (Stream.bytes s) (Stream.pos s + Z.of_nat n)).
Proof.
  induction n as [|n IH]; intros s str Hle.
  - simpl. rewrite app_nil_r, Z.add_0_r. destruct s; reflexivity.
  - specialize (Hle ltac:(discriminate)).
    cbn [Stream.find_read Stream.getChar].
    unfold Stream.lookChar.
    destruct (Stream.length s <=? Stream.pos s) eqn:Hend.
    { apply Z.leb_le in Hend. lia. }
    rewrite IH by (unfold Stream.length in *; simpl; lia).
    cbn [Stream.bytes Stream.pos append_char seq List.map].
    rewrite <- seq_shift, List.map_map, <- app_assoc. simpl.
    f_equal.
    + f_equal. rewrite Z.add_0_r. f_equal.
      apply map_ext. intros i. unfold Stream.byteAt. simpl.
      replace (Stream.pos s + 1 + Z.of_nat i)
        with (Stream.pos s + Z.pos (Pos.of_succ_nat i)) by lia.
      reflexivity.
    + f_equal. lia.
Qed.

Lemma nth_error_lookup {A} (l : list A) : forall i, nth_error l i = l !! i.
Proof. induction l as [|a l IH]; intros [|i]; simpl; auto. Qed.

(** On a stream of bytes with a position inside the data the window is
    the slice of the byte array. *)
Lemma window_bytes (s : Stream.t) (limit : Z) :
  0 <= Stream.pos s ->
  Forall (fun b => 0 <= b < 65536) (Stream.bytes s) ->
  Stream.window s limit =
  firstn (Z.to_nat limit) (skipn (Z.to_nat (Stream.pos s)) (Stream.bytes s)).
Proof.
  intros Hpos Hbytes. unfold Stream.window, Stream.length.
  apply list_eq. intros i.
  rewrite list_lookup_fmap.
  set (n := Z.to_nat (Z.min limit
              (Z.of_nat (List.length (Stream.bytes s)) - Stream.pos s))).
  destruct (decide (i < n)%nat) as [Hi | Hi].
  - rewrite lookup_seq_lt by exact Hi. simpl.
    rewrite lookup_take_lt by (unfold n in Hi; lia).
    rewrite lookup_drop.
    unfold Stream.byteAt.
    replace (Stream.pos s + Z.of_nat i <? 0) with false
      by (symmetry; apply Z.ltb_ge; lia).
    replace (Z.to_nat (Stream.pos s + Z.of_nat i))
      with (Z.to_nat (Stream.pos s) + i)%nat by lia.
    rewrite nth_error_lookup.
    destruct (Stream.bytes s !! (Z.to_nat (Stream.pos s) + i)%nat) as [b|] eqn:E.
    + simpl. f_equal. apply Z.mod_small.
      rewrite Forall_forall in Hbytes. apply Hbytes.
      eapply list_elem_of_lookup_2. exact E.
    + apply lookup_ge_None in E. unfold n in Hi. lia.
  - rewrite lookup_seq_ge by lia. simpl. symmetry.
    destruct (decide (i < Z.to_nat limit)%nat) as [Hl | Hl].
    + rewrite lookup_take_lt by exact Hl. rewrite lookup_drop.
      apply lookup_ge_None. unfold n in Hi. lia.
    + apply lookup_take_ge. lia.
Qed.

(** C10, as the code has it. [Stream.find] with a limit that is a
    count ([0 <= limit]):
    when it returns false the stream is left as it was, position
    included, and the needle occurs nowhere in the window; when it
    returns true the bytes are unchanged and the position is advanced by
    the offset [k] of the first occurrence of the needle in the window
    (the last one when [backwards]), the window being at most [limit]
    characters from the original position, so that the match ends, and
    the new position lies, no further than the original position plus
    [limit]. *)
Theorem find_spec (s : Stream.t) (needle : jsstring) (limit : Z)
        (backwards : bool) :
  0 <= limit ->
  let w := Stream.window s limit in
  match Stream.find needle limit backwards s with
  | (false, s') =>
      s' = s /\ forall j, ~ occurs_at w needle j
  | (true, s') =>
      Stream.bytes s' = Stream.bytes s /\
      exists k,
        Stream.pos s' = Stream.pos s + k /\
        occurs_at w needle k /\
        (forall j, occurs_at w needle j ->
                   if backwards then j <= k else k <= j) /\
        Z.of_nat (List.length w) <= limit /\
        Stream.pos s' + Z.of_nat (List.length needle) <= Stream.pos s + limit
  end.
Proof.
  intros Hlim w. unfold Stream.find.
  set (lim := if Stream.length s <? Stream.pos s + limit then _ else _).
  assert (Hn : Z.to_nat lim
                = Z.to_nat (Z.min limit (Stream.length s - Stream.pos s))).
  { unfold lim. destruct (Stream.length s <? Stream.pos s + limit) eqn:E.
    - apply Z.ltb_lt in E. f_equal. lia.
    - apply Z.ltb_ge in E. f_equal. lia. }
  rewrite find_read_window by (rewrite Hn; lia).
  rewrite Hn. simpl app. fold (Stream.window s limit). fold w.
  cbn [Stream.bytes Stream.pos].
  assert (Hw : Z.of_nat (List.length w) <= limit).
  { unfold w, Stream.window. rewrite length_map, length_seq. lia. }
  set (index := if backwards then lastIndexOf w needle else indexOf w needle).
  assert (Hspec :
    (index = -1 /\ forall j, ~ occurs_at w needle j) \/
    (0 <= index /\ occurs_at w needle index /\
     forall j, occurs_at w needle j ->
               if backwards then j <= index else index <= j)).
  { unfold index. destruct backwards.
    - destruct (lastIndexOf_from_spec needle w 0 ltac:(lia))
        as [H | (H1 & H2 & H3)]; [left; exact H | right].
      unfold lastIndexOf. rewrite Z.sub_0_r in H2, H3. auto.
    - destruct (indexOf_from_spec needle w 0 ltac:(lia))
        as [H | (H1 & H2 & H3)]; [left; exact H | right].
      unfold indexOf. rewrite Z.sub_0_r in H2, H3. auto. }
  destruct Hspec as [[Hm Hno] | (H0 & Hocc & Hext)].
  - rewrite Hm. simpl. split; [destruct s; reflexivity | exact Hno].
  - destruct (index =? -1) eqn:E; [apply Z.eqb_eq in E; lia|].
    split; [reflexivity|]. exists index. cbn [Stream.pos].
    repeat split; auto.
    apply occurs_at_bound in Hocc. lia.
Qed.

(** The search for "endobj" that [PDFDoc.startXRef] runs, on a small
    document. *)
Lemma find_spec_witness :
  0 <= 1024 /\
  let s := Stream.mk (js "1 0 obj endobj xref") 0 in
  let w := Stream.window s 1024 in
  match Stream.find (js "endobj") 1024 false s with
  | (false, s') =>
      s' = s /\ forall j, ~ occurs_at w (js "endobj") j
  | (true, s') =>
      Stream.bytes s' = Stream.bytes s /\
      exists k,
        Stream.pos s' = Stream.pos s + k /\
        occurs_at w (js "endobj") k /\
        (forall j, occurs_at w (js "endobj") j ->
                   if false then j <= k else k <= j) /\
        Z.of_nat (List.length w) <= 1024 /\
        Stream.pos s' + Z.of_nat (List.length (js "endobj"))
          <= Stream.pos s + 1024
  end.
Proof.
  split; [lia|].
  apply (find_spec (Stream.mk (js "1 0 obj endobj xref") 0)
                   (js "endobj") 1024 false).
  lia.
Defined.

(** C10, as stated, fails for a negative limit: with the limit -5
    and the empty needle, [find] reads nothing, finds the empty needle
    at offset 0 and returns true with the position where it was, which
    is past the original position plus the limit. *)
Lemma find_negative_limit :
  let s := Stream.mk (js "abc") 0 in
  Stream.find [] (-5) false s = (true, s) /\
  ~ (Stream.pos (snd (Stream.find [] (-5) false s)) <= Stream.pos s + (-5)).
Proof.
  split; [reflexivity|].
  change (~ (0 <= 0 + (-5))). lia.
Qed.

End StreamFacts.

(** ** Lexer: names, commands and object identity *)

Module LexerFacts.

Import Lexer.

Lemma lookChar_Some_lt s c :
  Stream.lookChar s = Some c -> Stream.pos s < Stream.length s.
Proof.
  unfold Stream.lookChar.
  destruct (Stream.length s <=? Stream.pos s) eqn:E; [discriminate|].
  intros _. apply Z.leb_gt in E. exact E.
Qed.

(** Every turn of the name loop consumes a character, so the fuel
    [getName] provides is never used up. *)
Lemma getName_loop_fuel : forall fuel st str,
  (Z.to_nat (Stream.length (stream st) - Stream.pos (stream st)) < fuel)%nat ->
  getName_loop fuel st str <> None.
Proof.
  induction fuel as [|fuel IH]; intros st str Hf; [lia|].
  cbn [getName_loop].
  destruct (Stream.lookChar (stream st)) as [ch|] eqn:Hlook; [|discriminate].
  apply lookChar_Some_lt in Hlook.
  destruct (negb (specialChars ch =? 0)); [discriminate|].
  cbn [with_stream stream Stream.getChar snd].
  set (s1 := Stream.mk _ _).
  destruct (ch =? 35).
  - destruct (ToHexDigit (Stream.lookChar s1)) as [x|e] eqn:Hx; [|discriminate].
    destruct (negb (js_eq_num x (-1))).
    + cbn [Stream.bytes Stream.pos].
      set (s2 := Stream.mk _ _).
      destruct (ToHexDigit (Stream.lookChar s2)) as [x2|e] eqn:Hx2;
        [|discriminate].
      assert (Stream.pos s2 < Stream.length s2).
      { destruct (Stream.lookChar s2) eqn:E; [|discriminate].
        apply lookChar_Some_lt in E. exact E. }
      apply IH.
      destruct (js_eq_num x2 (-1));
        cbn [error stream with_stream Stream.pos Stream.length Stream.bytes];
        unfold Stream.length, s2, s1 in *;
        cbn [Stream.bytes Stream.pos] in *;
        clear Hx Hx2; clearbody s1 s2; lia.
    + apply IH. cbn [stream with_stream].
      unfold Stream.length, s1 in *. cbn [Stream.bytes Stream.pos]. lia.
  - apply IH. cbn [stream with_stream].
    unfold Stream.length, s1 in *. cbn [Stream.bytes Stream.pos]. lia.
Qed.

(** [getName] always ends: with a token or with an exception. *)
Lemma getName_total st : getName st <> None.
Proof.
  unfold getName.
  destruct (getName_loop _ st []) as [[[str st']|e]|] eqn:H.
  - destruct (new _ _). discriminate.
  - discriminate.
  - exfalso. revert H. apply getName_loop_fuel. unfold getName_fuel. lia.
Qed.

Lemma getCommand_loop_fuel : forall fuel st str,
  (Z.to_nat (Stream.length (stream st) - Stream.pos (stream st)) < fuel)%nat ->
  getCommand_loop fuel st str <> None.
Proof.
  induction fuel as [|fuel IH]; intros st str Hf; [lia|].
  cbn [getCommand_loop].
  destruct (Stream.lookChar (stream st)) as [ch|] eqn:Hlook; [|discriminate].
  apply lookChar_Some_lt in Hlook.
  destruct (negb (specialChars ch =? 0)); [discriminate|].
  destruct (Z.of_nat (List.length str) =? 128); [discriminate|].
  apply IH.
  cbn [with_stream stream Stream.getChar snd Stream.pos Stream.length Stream.bytes].
  unfold Stream.length in *. cbn [Stream.bytes]. lia.
Qed.

Lemma getObj_command_total ch st : getObj_command ch st <> None.
Proof.
  unfold getObj_command.
  destruct (getCommand_loop _ st [ch]) as [[[str st']|e]|] eqn:H.
  - repeat (destruct (jsstring_eqb _ _); [discriminate|]).
    destruct (new _ _). discriminate.
  - discriminate.
  - exfalso. revert H. apply getCommand_loop_fuel. unfold getName_fuel. lia.
Qed.

(** Neither loop touches the heap. *)
Lemma getName_loop_heap : forall fuel st str str' st',
  getName_loop fuel st str = Some (Ok (str', st')) ->
  heap st' = heap st.
Proof.
  induction fuel as [|fuel IH]; intros st str str' st' H; [discriminate|].
  cbn [getName_loop] in H.
  destruct (Stream.lookChar (stream st)) as [ch|];
    [|injection H as _ <-; reflexivity].
  destruct (negb (specialChars ch =? 0)); [injection H as _ <-; reflexivity|].
  destruct (ch =? 35).
  - destruct (ToHexDigit _) as [x|e]; [|discriminate].
    destruct (negb (js_eq_num x (-1))).
    + destruct (Stream.getChar _) as [ch2 s2].
      destruct (ToHexDigit ch2) as [x2|e]; [|discriminate].
      apply IH in H. rewrite H. destruct (js_eq_num x2 (-1)); reflexivity.
    + apply IH in H. rewrite H. reflexivity.
  - apply IH in H. rewrite H. reflexivity.
Qed.

Lemma getCommand_loop_heap : forall fuel st str str' st',
  getCommand_loop fuel st str = Some (Ok (str', st')) ->
  heap st' = heap st.
Proof.
  induction fuel as [|fuel IH]; intros st str str' st' H; [discriminate|].
  cbn [getCommand_loop] in H.
  destruct (Stream.lookChar (stream st)) as [ch|];
    [|injection H as _ <-; reflexivity].
  destruct (negb (specialChars ch =? 0)); [injection H as _ <-; reflexivity|].
  destruct (Z.of_nat (List.length str) =? 128); [discriminate|].
  apply IH in H. rewrite H. reflexivity.
Qed.

(** [getName] allocates: its token is the object appended to the
    heap. *)
Lemma getName_allocates st t st' :
  getName st = Some (Ok (t, st')) ->
  exists str, t = TRef (List.length (heap st)) /\
              heap st' = heap st ++ [HName str].
Proof.
  unfold getName.
  destruct (getName_loop _ st []) as [[[str st1]|e]|] eqn:H; [|discriminate..].
  apply getName_loop_heap in H.
  unfold new. intros E. injection E as <- <-. exists str.
  destruct (128 <? _); cbn [heap error]; rewrite H; auto.
Qed.

Lemma getObj_command_allocates ch st t st' :
  getObj_command ch st = Some (Ok (t, st')) ->
  (heap st' = heap st /\ forall r, t <> TRef r) \/
  exists str, t = TRef (List.length (heap st)) /\
              heap st' = heap st ++ [HCmd str].
Proof.
  unfold getObj_command.
  destruct (getCommand_loop _ st [ch]) as [[[str st1]|e]|] eqn:H;
    [|discriminate..].
  apply getCommand_loop_heap in H.
  destruct (jsstring_eqb str (js "true")).
  { intros E. injection E as <- <-. left. split; [exact H | discriminate]. }
  destruct (jsstring_eqb str (js "false")).
  { intros E. injection E as <- <-. left. split; [exact H | discriminate]. }
  destruct (jsstring_eqb str (js "null")).
  { intros E. injection E as <- <-. left. split; [exact H | discriminate]. }
  unfold new. intros E. injection E as <- <-. right. exists str.
  cbn [heap]. rewrite H. auto.
Qed.

(** [IsCmd(v, cmd)] compares the text of the command. *)
Lemma IsCmd_compares_text c cmd :
  cmd <> [] -> (IsCmd (OCmd c) cmd = true <-> c = cmd).
Proof.
  intros Hne. unfold IsCmd, jsstring_eqb.
  destruct cmd as [|a cmd]; [contradiction|].
  apply bool_decide_eq_true.
Qed.

(** C5, as the code has it. Names and commands are not interned: the
    token that [Lexer.getName] or the command branch of [Lexer.getObj]
    returns is never the same object as an object [old] that existed
    before the call, whatever text the two carry, and [old] keeps its
    text; commands are compared by their text ([IsCmd(v, cmd)] tests
    [v.cmd == cmd]). *)
Theorem lexed_token_is_a_new_object (st st' : state) (t old : token) :
  (getName st = Some (Ok (t, st')) \/
   exists ch, getObj_command ch st = Some (Ok (t, st'))) ->
  text_of st old <> None ->
  same_object old t = false /\
  text_of st' old = text_of st old /\
  forall c cmd, cmd <> [] -> (IsCmd (OCmd c) cmd = true <-> c = cmd).
Proof.
  intros Hlex Hold.
  assert (Hr : exists r, old = TRef r /\ (r < List.length (heap st))%nat).
  { destruct old as [r| |]; simpl in Hold; try congruence.
    exists r. split; [reflexivity|].
    destruct (nth_error (heap st) r) eqn:E; [|congruence].
    apply nth_error_Some. congruence. }
  destruct Hr as (r & -> & Hlt).
  assert (Hheap :
    (heap st' = heap st /\ forall r, t <> TRef r) \/
    exists o, t = TRef (List.length (heap st)) /\ heap st' = heap st ++ [o]).
  { destruct Hlex as [H | [ch H]].
    - apply getName_allocates in H. destruct H as (str & -> & ->).
      right. eauto.
    - apply getObj_command_allocates in H.
      destruct H as [H | (str & -> & ->)]; [left; exact H | right; eauto]. }
  split; [|split; [|exact IsCmd_compares_text]].
  - destruct Hheap as [[Hh Hne] | (o & -> & Hh)].
    + destruct t; simpl; try reflexivity. exfalso. eapply Hne. reflexivity.
    + simpl. apply Nat.eqb_neq. lia.
  - destruct Hheap as [[Hh Hne] | (o & -> & Hh)]; simpl; rewrite Hh.
    + reflexivity.
    + rewrite nth_error_app1 by exact Hlt. reflexivity.
Qed.

(** The name [F1] lexed while a Name object with the text [F1] is
    already on the heap. *)
Lemma lexed_token_is_a_new_object_witness :
  let st := init (js "F1 ") [HName (js "F1")] in
  let st' := mkState (Stream.mk (js "F1 ") 2) []
                     [HName (js "F1"); HName (js "F1")] in
  same_object (TRef 0) (TRef 1) = false /\
  text_of st' (TRef 0) = text_of st (TRef 0) /\
  forall c cmd, cmd <> [] -> (IsCmd (OCmd c) cmd = true <-> c = cmd).
Proof.
  intros st st'.
  apply (lexed_token_is_a_new_object st st' (TRef 1) (TRef 0)).
  - left. vm_compute. reflexivity.
  - vm_compute. discriminate.
Defined.

(** C5, as stated, fails: the name [F1] lexed twice, and the command
    [BT] lexed twice, give two objects with the same text that are not
    the same object. *)
Lemma tokens_are_not_interned :
  (exists st1 st2 t1 t2,
     getName (init (js "F1 ") []) = Some (Ok (t1, st1)) /\
     getName (init (js "F1 ") (heap st1)) = Some (Ok (t2, st2)) /\
     text_of st2 t1 = Some (js "F1") /\
     text_of st2 t2 = Some (js "F1") /\
     same_object t1 t2 = false) /\
  (exists st1 st2 t1 t2,
     getObj_command 66 (init (js "T ") []) = Some (Ok (t1, st1)) /\
     getObj_command 66 (init (js "T ") (heap st1)) = Some (Ok (t2, st2)) /\
     text_of st2 t1 = Some (js "BT") /\
     text_of st2 t2 = Some (js "BT") /\
     same_object t1 t2 = false).
Proof.
  split; do 4 eexists; repeat split; vm_compute; reflexivity.
Qed.

(** The two hexadecimal digits of an escape, as [ToHexDigit] reads
    them: a decimal digit is its value, a letter is NaN. *)
Lemma ToHexDigit_decimal c :
  48 <= c <= 57 -> ToHexDigit (Some c) = Ok (Num (c - 48)).
Proof.
  intros [H1 H2]. unfold ToHexDigit, ToNumber_char.
  replace (48 <=? c) with true by (symmetry; apply Z.leb_le; lia).
  replace (c <=? 57) with true by (symmetry; apply Z.leb_le; lia).
  simpl. f_equal. f_equal. lia.
Qed.

Lemma ToHexDigit_letter c :
  (65 <= c <= 70 \/ 97 <= c <= 102) -> ToHexDigit (Some c) = Ok NaN.
Proof.
  intros H.
  assert (Hc : In c [65; 66; 67; 68; 69; 70; 97; 98; 99; 100; 101; 102]).
  { simpl. lia. }
  simpl in Hc.
  repeat (destruct Hc as [<- | Hc]; [reflexivity|]). destruct Hc.
Qed.

(** An escape of two decimal digits is decoded to the byte it
    writes: [#20] is a space. *)
Lemma getName_decimal_escape :
  exists st,
    getName (init (js "A#20B ") []) = Some (Ok (TRef 0, st)) /\
    text_of st (TRef 0) = Some (js "A B") /\
    printed st = [].
Proof. eexists. repeat split; vm_compute; reflexivity. Qed.

(** C6, the code at the failing input: in the name [/A#2FB] the escape
    [#2F] (a slash) is decoded to the byte 0x20, a space, because
    [ToHexDigit("F")] is ["f" - "a"], which is NaN; nothing is
    printed. *)
Theorem getName_hex_letter_escape :
  exists st,
    getName (init (js "A#2FB ") []) = Some (Ok (TRef 0, st)) /\
    text_of st (TRef 0) = Some [65; 32; 66] /\
    text_of st (TRef 0) <> Some [65; 47; 66] /\
    printed st = [].
Proof.
  eexists. repeat split; try (vm_compute; reflexivity).
  vm_compute. discriminate.
Qed.

(** A name longer than 128 bytes is lexed all the same; the warning is
    printed and nothing is thrown. *)
Lemma getName_long_name_warns :
  let st :=
    mkState (Stream.mk (repeat 65 129 ++ [32]) 129)
      ["Warning: name token is longer than allowed by the specification"%string]
      [HName (repeat 65 129)] in
  getName (init (repeat 65 129 ++ [32]) []) = Some (Ok (TRef 0, st)) /\
  text_of st (TRef 0) = Some (repeat 65 129).
Proof. split; vm_compute; reflexivity. Qed.

End LexerFacts.

(** ** XRef.readXRefTable *)

Module XRefFacts.

Import XRef.

Lemma IsCmd_flag k :
  (if IsCmd (OCmd (match k with Uncompressed => js "n" | Free => js "f" end))
            (js "n")
   then Some Uncompressed
   else if IsCmd (OCmd (match k with Uncompressed => js "n" | Free => js "f" end))
                 (js "f")
        then Some Free else None) = Some k.
Proof. destruct k; reflexivity. Qed.

(** One turn of the entry loop on a well-formed line. *)
Lemma entryLoop_step fuel es i first n e p :
  well_formed e -> i < first + n ->
  entryLoop (S fuel) es i first n (line_of e ++ p) =
  match es !! i with
  | Some _ => entryLoop fuel es (i + 1) first n p
  | None =>
      if (i =? 1) && bug_pattern first e
      then entryLoop fuel (<[0 := e]> es) 1 0 n p
      else entryLoop fuel (<[i := e]> es) (i + 1) first n p
  end.
Proof.
  intros [Ho Hg] Hlt. destruct e as [off g k].
  unfold int32 in Ho, Hg. cbn [offset gen flag] in *.
  cbn [entryLoop].
  replace (i <? first + n) with true by (symmetry; apply Z.ltb_lt; exact Hlt).
  cbn [negb line_of line offset gen flag app Parser.getObj IsInt].
  rewrite Ho, Hg, !Z.eqb_refl. cbn [negb int_of].
  rewrite IsCmd_flag.
  destruct (es !! i); [reflexivity|].
  unfold bug_pattern. cbn [offset gen free flag].
  destruct (i =? 1), (first =? 1), (off =? 0), (g =? 65535), k; reflexivity.
Qed.

(** Past the first line of a subsection the loop is plain first-wins
    storing. *)
Lemma entryLoop_plain : forall lines fuel es i first n rest,
  first < i ->
  i + Z.of_nat (List.length lines) = first + n ->
  (List.length lines <= fuel)%nat ->
  Forall well_formed lines ->
  entryLoop fuel es i first n (flat_map line_of lines ++ rest) =
  LoopDone (store_first_wins es i lines) rest.
Proof.
  induction lines as [|e lines IH]; intros fuel es i first n rest Hi Hn Hf Hwf.
  - simpl in *. destruct fuel; cbn [entryLoop];
      replace (i <? first + n) with false by (symmetry; apply Z.ltb_ge; lia);
      reflexivity.
  - destruct fuel as [|fuel]; [simpl in Hf; lia|].
    inversion Hwf as [|? ? He Hwf']; subst.
    cbn [flat_map]. rewrite <- app_assoc.
    rewrite entryLoop_step by (auto; simpl in Hn; lia).
    cbn [store_first_wins]. unfold store.
    destruct (es !! i) eqn:E.
    + apply IH; auto; simpl in *; lia.
    + assert (Hno : (i =? 1) && bug_pattern first e = false).
      { unfold bug_pattern.
        destruct (Z.eqb_spec i 1), (Z.eqb_spec first 1); try reflexivity. lia. }
      rewrite Hno. apply IH; auto; simpl in *; lia.
Qed.

(** The loop over one subsection computes [subsection_result]. *)
Lemma entryLoop_renumbering (es : gmap Z entry) (first : Z)
      (lines : list entry) (rest : parser) :
  Forall well_formed lines ->
  entryLoop (List.length lines) es first first (Z.of_nat (List.length lines))
            (flat_map line_of lines ++ rest) =
  LoopDone (subsection_result es first lines) rest.
Proof.
  intros Hwf. destruct lines as [|e0 lines].
  - simpl. rewrite Z.add_0_r, Z.ltb_irrefl. reflexivity.
  - inversion Hwf as [|? ? He Hwf']; subst.
    cbn [List.length flat_map]. rewrite <- app_assoc.
    rewrite entryLoop_step by (auto; lia).
    unfold subsection_result. cbn [store_first_wins]. unfold store, populated.
    destruct (Z.eqb_spec first 1) as [-> | Hne].
    + destruct (es !! 1) eqn:E1.
      * rewrite andb_false_r. apply entryLoop_plain; auto; lia.
      * rewrite andb_true_r. simpl andb. destruct (bug_pattern 1 e0).
        -- apply entryLoop_plain; auto; lia.
        -- apply entryLoop_plain; auto; lia.
    + assert (Hb : bug_pattern first e0 = false).
      { unfold bug_pattern.
        destruct (Z.eqb_spec first 1); [contradiction | reflexivity]. }
      rewrite Hb, andb_false_r. simpl.
      destruct (es !! first); apply entryLoop_plain; auto; lia.
Qed.

(** C4, as the code has it. For a table of one subsection
    [first n] with well-formed lines, read into any table [es]:
    the subsection is renumbered exactly when [first] is 1, its first
    entry is [0 65535 f] and object 1 is not populated in [es]; then
    that entry is written at index 0 and the following entries go to
    the indices 1, 2, ... (their declared index minus one), each
    unless the index is populated. In every other case each entry goes
    to its declared index, unless that index is populated. *)
Theorem readXRefTable_renumbering (es : gmap Z entry) (first : Z)
        (lines : list entry) :
  0 <= first -> int32 first ->
  int32 (Z.of_nat (List.length lines)) ->
  int32 (first + Z.of_nat (List.length lines)) ->
  Forall well_formed lines ->
  readXRefTable es
    ([OInt first; OInt (Z.of_nat (List.length lines))]
       ++ flat_map line_of lines ++ [OCmd (js "trailer")]) =
  Some (mkResult true
          (match lines with
           | e0 :: l' =>
               if bug_pattern first e0 && negb (populated es 1)
               then store_first_wins (<[0 := e0]> es) 1 l'
               else store_first_wins es first lines
           | [] => es
           end)
          true).
Proof.
  intros H0 Hf Hn Hsum Hwf. unfold readXRefTable.
  cbn [app List.length tableLoop Parser.getObj].
  replace (IsCmd (OInt first) (js "trailer")) with false by reflexivity.
  cbn [IsInt int_of]. unfold int32 in *. rewrite Hf, Hn, Hsum, !Z.eqb_refl.
  cbn [negb].
  replace (first <? 0) with false by (symmetry; apply Z.ltb_ge; lia).
  replace (Z.of_nat (List.length lines) <? 0) with false
    by (symmetry; apply Z.ltb_ge; lia).
  cbn [orb]. rewrite Nat2Z.id.
  rewrite entryLoop_renumbering by exact Hwf.
  rewrite length_app. cbn [List.length]. rewrite Nat.add_1_r.
  reflexivity.
Qed.

(** The buggy table [1 2 / 0 65535 f / 40 0 n] read into an empty
    table: the free entry lands at 0 and the object at 1. *)
Lemma readXRefTable_renumbering_witness :
  let lines := [mkEntry 0 65535 Free; mkEntry 40 0 Uncompressed] in
  readXRefTable fresh
    ([OInt 1; OInt (Z.of_nat (List.length lines))]
       ++ flat_map line_of lines ++ [OCmd (js "trailer")]) =
  Some (mkResult true
          (match lines with
           | e0 :: l' =>
               if bug_pattern 1 e0 && negb (populated fresh 1)
               then store_first_wins (<[0 := e0]> fresh) 1 l'
               else store_first_wins fresh 1 lines
           | [] => fresh
           end)
          true).
Proof.
  intros lines.
  apply (readXRefTable_renumbering fresh 1 lines).
  - lia.
  - reflexivity.
  - reflexivity.
  - reflexivity.
  - unfold lines. constructor; [split; reflexivity|].
    constructor; [split; reflexivity|]. constructor.
Defined.

(** C4, as stated, fails: a subsection declared at 1 whose first
    entry is [0 65535 f] is not renumbered when object 1 is already
    populated; nothing is written at index 0 and the following entry
    stays at its declared index 2. *)
Lemma subsection_at_1_not_renumbered :
  exists r,
    readXRefTable fresh table_second_subsection_at_1 = Some r /\
    returned r = true /\
    bug_pattern 1 (mkEntry 0 65535 Free) = true /\
    entries_after r !! 0 = None /\
    entries_after r !! 1 = Some (mkEntry 17 0 Uncompressed) /\
    entries_after r !! 2 = Some (mkEntry 40 0 Uncompressed).
Proof. eexists. repeat split; vm_compute; reflexivity. Qed.




(** Termination: the fuel [readXRefTable] provides is enough. *)
Lemma getObj_length p o p' :
  Parser.getObj p = (o, p') -> (List.length p' <= List.length p)%nat.
Proof. destruct p; intros [= <- <-]; simpl; lia. Qed.

Lemma entryLoop_fuel : forall fuel es i first n p,
  first + n - i <= Z.of_nat fuel ->
  match entryLoop fuel es i first n p with
  | LoopDone _ p' => (List.length p' <= List.length p)%nat
  | LoopFalse _ => True
  | LoopFuel => False
  end.
Proof.
  induction fuel as [|fuel IH]; intros es i first n p Hf; cbn [entryLoop].
  - destruct (Z.ltb_spec i (first + n)); simpl; lia.
  - destruct (Z.ltb_spec i (first + n)); simpl; [|lia].
    destruct (Parser.getObj p) as [o1 p1] eqn:G1. apply getObj_length in G1.
    destruct (negb (IsInt o1)); [exact I|].
    destruct (Parser.getObj p1) as [o2 p2] eqn:G2. apply getObj_length in G2.
    destruct (negb (IsInt o2)); [exact I|].
    destruct (Parser.getObj p2) as [o3 p3] eqn:G3. apply getObj_length in G3.
    destruct (if IsCmd o3 (js "n") then _ else _); [|exact I].
    assert (Hgen : forall es' i' first', first' + n - i' <= Z.of_nat fuel ->
      match entryLoop fuel es' i' first' n p3 with
      | LoopDone _ p' => (List.length p' <= List.length p)%nat
      | LoopFalse _ => True
      | LoopFuel => False
      end).
    { intros es' i' first' Hf'. specialize (IH es' i' first' n p3 Hf').
      destruct (entryLoop _ _ _ _ _ _); auto. lia. }
    destruct (es !! i).
    + apply Hgen. lia.
    + destruct ((i =? 1) && (first =? 1) && _ && _ && _) eqn:C.
      * apply andb_prop in C as [C _]. apply andb_prop in C as [C _].
        apply andb_prop in C as [C _]. apply andb_prop in C as [C1 C2].
        apply Z.eqb_eq in C1, C2. apply Hgen. lia.
      * apply Hgen. lia.
Qed.

Lemma tableLoop_total : forall fuel es p,
  (List.length p < fuel)%nat -> exists r, tableLoop fuel es p = Some r.
Proof.
  induction fuel as [|fuel IH]; intros es p Hf; [lia|]. cbn [tableLoop].
  destruct p as [|o p].
  - simpl. eexists. reflexivity.
  - cbn [Parser.getObj].
    destruct (IsCmd o (js "trailer")); [eexists; reflexivity|].
    destruct (negb (IsInt o)); [eexists; reflexivity|].
    destruct (Parser.getObj p) as [o2 p2] eqn:G2. apply getObj_length in G2.
    destruct (negb (IsInt o2)); [eexists; reflexivity|].
    destruct ((int_of o <? 0) || (int_of o2 <? 0) || _) eqn:C;
      [eexists; reflexivity|].
    apply orb_false_elim in C as [C _]. apply orb_false_elim in C as [_ C].
    apply Z.ltb_ge in C.
    pose proof (entryLoop_fuel (Z.to_nat (int_of o2)) es (int_of o) (int_of o)
                  (int_of o2) p2 ltac:(lia)) as H.
    destruct (entryLoop _ _ _ _ _ _) as [es' p'|es'|];
      [|eexists; reflexivity|contradiction].
    apply IH. simpl in Hf. lia.
Qed.

(** [readXRefTable] returns on every token stream. *)
Lemma readXRefTable_total es p : exists r, readXRefTable es p = Some r.
Proof. apply tableLoop_total. lia. Qed.

(** C3, the code at the failing input. The table
    [0 1 / 7 65535 f / 1 1 / 0 65535 f / trailer]: after the first
    subsection object 0 holds the entry [7 65535 f]; the second
    subsection shows the bug pattern, is renumbered, and its entry is
    written over object 0 without the test that guards every other
    store; object 1 stays unpopulated. *)
Theorem readXRefTable_overwrites_entry_0 :
  exists r1 r2,
    readXRefTable fresh
      ([OInt 0; OInt 1] ++ line 7 65535 Free ++ [OCmd (js "trailer")])
      = Some r1 /\
    entries_after r1 !! 0 = Some (mkEntry 7 65535 Free) /\
    readXRefTable fresh table_overwriting_0 = Some r2 /\
    returned r2 = true /\
    entries_after r2 !! 0 = Some (mkEntry 0 65535 Free) /\
    entries_after r2 !! 1 = None.
Proof. do 2 eexists. repeat split; vm_compute; reflexivity. Qed.

End XRefFacts.

(** ** Linearization *)

Module LinearizationFacts.

Import Linearization.

(** [Dict.prototype] has [get], [set] and [contains]; a call of
    [lookup] on a Dict throws. *)
Lemma Dict_has_no_lookup d arg :
  Dict.invoke d (js "lookup") arg
  = Throw (TypeError "undefined is not a function").
Proof. reflexivity. Qed.

(** [getInt] returns on no path: it ends in an exception for every
    object and every field name. *)
Lemma getInt_always_throws l name : exists e, getInt l name = Throw e.
Proof. unfold getInt. destruct (linDict l); eauto. Qed.

(** When the fourth object is not a dictionary, and the parser of
    pdf.js returns none, the constructor keeps it as [linDict]. *)
Lemma new_without_dict obj1 obj2 obj3 d rest :
  IsDict d = false ->
  new (obj1 :: obj2 :: obj3 :: d :: rest) = Ok (mk d).
Proof. intros H. unfold new. cbn [Parser.getObj]. destruct d; try reflexivity. discriminate. Qed.

(** On such an object every integer field ends in the call of the
    unbound [error], and every hint in the call of [this.error], which
    a Linearization does not have. *)
Lemma getInt_without_dict d name :
  IsDict d = false -> getInt (mk d) name = Throw (ReferenceError "error").
Proof. intros H. unfold getInt. cbn [linDict]. destruct d; try reflexivity. discriminate. Qed.

Lemma getHint_without_dict d index :
  IsDict d = false ->
  getHint (mk d) index = Throw (TypeError "this.error is not a function").
Proof. intros H. unfold getHint. cbn [linDict]. destruct d; try reflexivity. discriminate. Qed.

(** Without a dictionary in fourth place the document is treated as
    not linearized, whatever it declares. *)
Lemma PDFDoc_linearization_without_dict stream_length obj1 obj2 obj3 d rest :
  IsDict d = false ->
  PDFDoc_linearization stream_length (obj1 :: obj2 :: obj3 :: d :: rest)
  = Ok None.
Proof.
  intros H. unfold PDFDoc_linearization.
  destruct (Z.eqb_spec stream_length 0) as [E|E]; [reflexivity|].
  rewrite new_without_dict by exact H.
  unfold length. cbn [linDict]. rewrite H. cbn [negb differs].
  replace (0 =? stream_length) with false
    by (symmetry; apply Z.eqb_neq; lia).
  reflexivity.
Qed.

(** C9, the code at the failing input. For the document
    [1 0 obj << /Linearized 1 /L 5 /N -3 >>] of 1000 bytes the
    constructor ends with the command ["<"] as [linDict] and the getter
    [PDFDoc.linearization] returns [false], as the first half of the
    claim has it. The fields are another matter: on that object
    [numPages] (the invalid [/N]), like every field read through
    [getInt], does not return 0 but ends in the ReferenceError of the
    unbound [error], and [hintsOffset], like every hint, ends in the
    TypeError of [this.error], a method Linearization does not have. *)
Theorem Linearization_fields_throw :
  new linearized_document = Ok (mk (OCmd (js "<"))) /\
  PDFDoc_linearization 1000 linearized_document = Ok None /\
  numPages (mk (OCmd (js "<"))) = Throw (ReferenceError "error") /\
  objectNumberFirst (mk (OCmd (js "<"))) = Throw (ReferenceError "error") /\
  endFirst (mk (OCmd (js "<"))) = Throw (ReferenceError "error") /\
  mainXRefEntriesOffset (mk (OCmd (js "<"))) = Throw (ReferenceError "error") /\
  pageFirst (mk (OCmd (js "<"))) = Throw (ReferenceError "error") /\
  hintsOffset (mk (OCmd (js "<")))
    = Throw (TypeError "this.error is not a function") /\
  hintsLength (mk (OCmd (js "<")))
    = Throw (TypeError "this.error is not a function").
Proof. repeat split; reflexivity. Qed.

End LinearizationFacts.

(** ** Interpreter.interpretHelper *)

Module InterpreterFacts.

Import Interpreter.


(** A command either throws or is applied to the operand stack, and
    then the loop goes on with an empty stack. *)
Lemma interpLoop_command gfx args cmd rest :
  interpLoop gfx args (OCmd cmd :: rest) =
  match gfx cmd with
  | Some arity =>
      if not_dollar cmd then
        if negb (Nat.eqb arity (List.length args))
        then ([], Threw (error "Invalid number of arguments"))
        else (Apply cmd args :: fst (interpLoop gfx [] rest),
              snd (interpLoop gfx [] rest))
      else ([], Threw (error "Unknown command"))
  | None => ([], Threw (error "Unknown command"))
  end.
Proof.
  cbn [interpLoop IsEOF]. destruct (gfx cmd); [|reflexivity].
  destruct (not_dollar cmd); [|reflexivity].
  destruct (negb _); [reflexivity|].
  destruct (interpLoop gfx [] rest). reflexivity.
Qed.

(** C1. For every sink that has [RG] with three parameters, [m] and
    [l] with two and [S] with none, the stream
    [1 0 0 RG 100 100 m 200 200 l S] followed by EOF makes
    [interpretHelper] call [beginDrawing], then [RG(1,0,0)],
    [m(100,100)], [l(200,200)], [S()], then [endDrawing], and return
    with an empty operand stack. For every stream and every dispatch:
    the dispatch either throws, and then nothing more is read, or the
    method is applied and the loop reads on with an empty operand
    stack. *)
Theorem interpretHelper_scenario_B (gfx : sink) (mediaBox : Z * Z * Z * Z) :
  gfx (js "RG") = Some 3%nat -> gfx (js "m") = Some 2%nat ->
  gfx (js "l") = Some 2%nat -> gfx (js "S") = Some 0%nat ->
  interpretHelper gfx mediaBox scenario_B =
    ([BeginDrawing (box_of mediaBox);
      Apply (js "RG") [OInt 1; OInt 0; OInt 0];
      Apply (js "m") [OInt 100; OInt 100];
      Apply (js "l") [OInt 200; OInt 200];
      Apply (js "S") [];
      EndDrawing],
     Returned [])
  /\
  forall (args : list obj) (cmd : jsstring) (rest : list obj),
    (exists e, interpLoop gfx args (OCmd cmd :: rest) = ([], Threw e)) \/
    interpLoop gfx args (OCmd cmd :: rest) =
      (Apply cmd args :: fst (interpLoop gfx [] rest),
       snd (interpLoop gfx [] rest)).
Proof.
  intros HRG Hm Hl HS. split.
  - destruct mediaBox as [[[m0 m1] m2] m3].
    unfold interpretHelper, scenario_B, box_of.
    cbn [interpLoop IsEOF app].
    rewrite HRG, Hm, Hl, HS. reflexivity.
  - intros args cmd rest. rewrite interpLoop_command.
    destruct (gfx cmd); [|left; eauto].
    destruct (not_dollar cmd); [|left; eauto].
    destruct (negb _); [left; eauto | right; reflexivity].
Qed.

(** The scenario on [EchoGraphics] with the US Letter media box. *)
Lemma interpretHelper_scenario_B_witness :
  interpretHelper EchoGraphics (0, 0, 612, 792) scenario_B =
    ([BeginDrawing (box_of (0, 0, 612, 792));
      Apply (js "RG") [OInt 1; OInt 0; OInt 0];
      Apply (js "m") [OInt 100; OInt 100];
      Apply (js "l") [OInt 200; OInt 200];
      Apply (js "S") [];
      EndDrawing],
     Returned [])
  /\
  forall (args : list obj) (cmd : jsstring) (rest : list obj),
    (exists e, interpLoop EchoGraphics args (OCmd cmd :: rest)
               = ([], Threw e)) \/
    interpLoop EchoGraphics args (OCmd cmd :: rest) =
      (Apply cmd args :: fst (interpLoop EchoGraphics [] rest),
       snd (interpLoop EchoGraphics [] rest)).
Proof.
  apply (interpretHelper_scenario_B EchoGraphics (0, 0, 612, 792));
    reflexivity.
Defined.

(** The echo test "Rectangle" of pdf.js runs to its end. *)
Lemma interpretHelper_rectangle_test :
  snd (interpretHelper EchoGraphics (0, 0, 612, 792)
         [OInt 1; OInt 0; OInt 0; OInt 1; OInt 80; OInt 80; OCmd (js "cm");
          OInt 0; OInt 72; OCmd (js "m");
          OInt 72; OInt 0; OCmd (js "l");
          OInt 0; OInt (-72); OCmd (js "l");
          OInt (-72); OInt 0; OCmd (js "l");
          OInt 4; OCmd (js "w");
          OCmd (js "h"); OCmd (js "S"); OEOF])
  = Returned [].
Proof. vm_compute. reflexivity. Qed.

(** A prefix without EOF that runs to its end hands its operand stack
    to what follows. *)
Lemma interpLoop_app gfx : forall pre args tail calls args',
  Forall (fun o => IsEOF o = false) pre ->
  interpLoop gfx args (pre ++ [OEOF]) = (calls, Returned args') ->
  interpLoop gfx args (pre ++ tail) =
  (calls ++ fst (interpLoop gfx args' tail), snd (interpLoop gfx args' tail)).
Proof.
  induction pre as [|o pre IH]; intros args tail calls args' Hpre Hrun.
  - simpl in Hrun. injection Hrun as <- <-. simpl.
    destruct (interpLoop gfx args tail). reflexivity.
  - inversion Hpre as [|? ? Ho Hpre']; subst.
    destruct o; try discriminate Ho;
      try (simpl in Hrun |- *; apply IH; assumption).
    cbn [app] in Hrun |- *. rewrite interpLoop_command in Hrun |- *.
    destruct (gfx cmd); [|discriminate].
    destruct (not_dollar cmd); [|discriminate].
    destruct (negb _); [discriminate|].
    destruct (interpLoop gfx [] (pre ++ [OEOF])) as [calls0 st0] eqn:E.
    cbn [fst snd] in Hrun. injection Hrun as <- ->.
    rewrite (IH [] tail calls0 args' Hpre' E). reflexivity.
Qed.

Lemma interpLoop_malformed gfx args cmd rest :
  malformed gfx cmd args ->
  exists e, interpLoop gfx args (OCmd cmd :: rest) = ([], Threw e).
Proof.
  unfold malformed. rewrite interpLoop_command.
  destruct (gfx cmd) as [arity|]; [|eauto].
  intros [-> | Hne]; [eauto|].
  destruct (not_dollar cmd); [|eauto].
  apply Nat.eqb_neq in Hne. rewrite Hne. eauto.
Qed.


(** C2, as the code has it. When the operators before it have been
    dispatched ([calls], leaving the operands [args]) and the next
    command has no method in the sink, or names a [$] helper, or finds
    a number of operands different from the arity of its method, then
    [interpretHelper] throws: the sink has received [beginDrawing] and
    [calls] and nothing else, neither the method of the malformed
    command, nor anything the rest of the stream asks for, nor
    [endDrawing]. *)
Theorem interpretHelper_malformed_command_aborts
        (gfx : sink) (mediaBox : Z * Z * Z * Z)
        (pre : list obj) (cmd : jsstring) (rest : list obj)
        (calls : list call) (args : list obj) :
  Forall (fun o => IsEOF o = false) pre ->
  interpLoop gfx [] (pre ++ [OEOF]) = (calls, Returned args) ->
  malformed gfx cmd args ->
  exists e,
    interpretHelper gfx mediaBox (pre ++ OCmd cmd :: rest) =
    (BeginDrawing (box_of mediaBox) :: calls, Threw e).
Proof.
  intros Hpre Hrun Hbad.
  destruct (interpLoop_malformed gfx args cmd rest Hbad) as [e He].
  exists e. destruct mediaBox as [[[m0 m1] m2] m3].
  unfold interpretHelper, box_of.
  rewrite (interpLoop_app gfx pre [] (OCmd cmd :: rest) calls args Hpre Hrun).
  rewrite He. cbn [fst snd]. rewrite app_nil_r. reflexivity.
Qed.

(** [100 100 m foo 200 200 l S] on [EchoGraphics]. *)
Lemma interpretHelper_malformed_command_aborts_witness :
  exists e,
    interpretHelper EchoGraphics (0, 0, 612, 792)
      ([OInt 100; OInt 100; OCmd (js "m")] ++ OCmd (js "foo") ::
       [OInt 200; OInt 200; OCmd (js "l"); OCmd (js "S"); OEOF]) =
    (BeginDrawing (box_of (0, 0, 612, 792))
       :: [Apply (js "m") [OInt 100; OInt 100]],
     Threw e).
Proof.
  apply (interpretHelper_malformed_command_aborts EchoGraphics (0, 0, 612, 792)
           [OInt 100; OInt 100; OCmd (js "m")] (js "foo")
           [OInt 200; OInt 200; OCmd (js "l"); OCmd (js "S"); OEOF]
           [Apply (js "m") [OInt 100; OInt 100]] []).
  - constructor; [reflexivity|]. constructor; [reflexivity|].
    constructor; [reflexivity|]. constructor.
  - vm_compute. reflexivity.
  - vm_compute. exact I.
Defined.

(** C2, as stated, fails: after an unknown command, and after a
    command with a missing operand, the interpretation stops; the later
    operators [l] and [S] never reach the sink and [endDrawing] is not
    called. *)
Lemma interpretHelper_aborts_on_malformed_operator :
  interpretHelper EchoGraphics (0, 0, 612, 792) stream_with_unknown_command =
    ([BeginDrawing (mkBox 0 0 612 792); Apply (js "m") [OInt 100; OInt 100]],
     Threw (TypeError "Error is not a constructor")) /\
  interpretHelper EchoGraphics (0, 0, 612, 792) stream_with_missing_operand =
    ([BeginDrawing (mkBox 0 0 612 792); Apply (js "m") [OInt 100; OInt 100]],
     Threw (TypeError "Error is not a constructor")).
Proof. split; vm_compute; reflexivity. Qed.

End InterpreterFacts.

(** ** Type1Parser.decodeCharString *)

Module Type1ParserFacts.

Import Type1Parser.

(** Every turn of the loop moves the index forward, so the fuel
    [decodeCharString] provides is never used up. *)
Lemma decodeLoop_fuel : forall fuel aArray i acc,
  0 <= i ->
  Z.of_nat (List.length aArray) - i <= Z.of_nat fuel ->
  decodeLoop fuel aArray i acc <> None.
Proof.
  induction fuel as [|fuel IH]; intros aArray i acc Hi Hf; cbn [decodeLoop].
  - destruct (Z.ltb_spec i (Z.of_nat (List.length aArray))); simpl;
      [lia | discriminate].
  - destruct (Z.ltb_spec i (Z.of_nat (List.length aArray))); simpl;
      [|discriminate].
    destruct (slot aArray i) as [value|]; [|discriminate].
    destruct (value <? 32).
    + destruct (if value =? 12 then _ else _);
        try discriminate; try (apply IH; destruct (value =? 12); lia).
      all: destruct (_ <? _);
        [apply IH; destruct (value =? 12); lia | discriminate].
    + destruct (value <=? 246); [apply IH; lia|].
      destruct (value <=? 250); [apply IH; lia|].
      destruct (value <=? 254); apply IH; lia.
Qed.

(** [decodeCharString] ends on every byte array: with a charstring or
    with the error of an unimplemented command. *)
Lemma decodeCharString_total aArray : decodeCharString aArray <> None.
Proof. apply decodeLoop_fuel; lia. Qed.

Ltac decode_head :=
  unfold decodeCharString; cbn [List.length decodeLoop];
  repeat match goal with
         | |- context [Z.of_nat ?n] =>
             let v := eval vm_compute in (Z.of_nat n) in
             change (Z.of_nat n) with v
         end;
  change (0 <? 1) with true; change (0 <? 2) with true;
  cbn [negb]; unfold slot at 1;
  change (0 <? 0) with false; change (Z.to_nat 0) with 0%nat;
  cbn [nth_error].

(** The one-byte range: [v] in 32..246 is [v - 139]. *)
Lemma decodeCharString_one_byte v :
  32 <= v <= 246 ->
  decodeCharString [v] = Some (Ok [INum (v - 139)]).
Proof.
  intros [H1 H2]. decode_head.
  replace (v <? 32) with false by (symmetry; apply Z.ltb_ge; lia).
  replace (v <=? 246) with true by (symmetry; apply Z.leb_le; lia).
  reflexivity.
Qed.

(** The two-byte positive range: [v] in 247..250 followed by [w]. *)
Lemma decodeCharString_two_bytes_positive v w :
  247 <= v <= 250 ->
  decodeCharString [v; w] = Some (Ok [INum ((v - 247) * 256 + w + 108)]).
Proof.
  intros [H1 H2]. decode_head.
  replace (v <? 32) with false by (symmetry; apply Z.ltb_ge; lia).
  replace (v <=? 246) with false by (symmetry; apply Z.leb_gt; lia).
  replace (v <=? 250) with true by (symmetry; apply Z.leb_le; lia).
  reflexivity.
Qed.

(** The two-byte negative range: [v] in 251..254 followed by [w]. *)
Lemma decodeCharString_two_bytes_negative v w :
  251 <= v <= 254 ->
  decodeCharString [v; w] = Some (Ok [INum (- ((v - 251) * 256) - w - 108)]).
Proof.
  intros [H1 H2]. decode_head.
  replace (v <? 32) with false by (symmetry; apply Z.ltb_ge; lia).
  replace (v <=? 246) with false by (symmetry; apply Z.leb_gt; lia).
  replace (v <=? 250) with false by (symmetry; apply Z.leb_gt; lia).
  replace (v <=? 254) with true by (symmetry; apply Z.leb_le; lia).
  reflexivity.
Qed.

(** The five-byte form agrees with the big-endian reading when the
    first of the four bytes is 0: 1200 is [255 0 0 4 176]. *)
Lemma decodeCharString_255_small :
  decodeCharString [255; 0; 0; 4; 176] = Some (Ok [INum 1200]) /\
  int32_be 0 0 4 176 = 1200.
Proof. split; vm_compute; reflexivity. Qed.

(** An unimplemented command ends the decoding with an error. *)
Lemma decodeCharString_seac :
  exists e, decodeCharString [139; 12; 6] = Some (Throw e).
Proof. eexists. vm_compute. reflexivity. Qed.

(** C7, the code at the failing input. The bytes [255 255 255 251 80]
    are the big-endian two's-complement encoding of -1200;
    [decodeCharString] yields -2130707632, because the first of the
    four bytes enters as [byte - (byte >> 1)] and not as [byte].
    Likewise [255 2 0 0 0], which encodes 33554432, yields
    16777216. *)
Theorem decodeCharString_255_is_not_big_endian :
  decodeCharString [255; 255; 255; 251; 80] = Some (Ok [INum (-2130707632)]) /\
  int32_be 255 255 251 80 = -1200 /\
  decodeCharString [255; 2; 0; 0; 0] = Some (Ok [INum 16777216]) /\
  int32_be 2 0 0 0 = 33554432.
Proof. repeat split; vm_compute; reflexivity. Qed.

End Type1ParserFacts.

(** ** CFF.getOrderedCharStrings *)

Module CFFFacts.

Import Type1Parser CFF.

(** What the loop keeps: the glyphs with a truthy table entry, in
    input order. *)
Lemma collect_kept table : forall aGlyphs,
  fst (collect table aGlyphs) =
  List.map (fun g => mkCharstring (glyph_name g)
                       (default 0 (table (glyph_name g))) (data g))
           (List.filter (fun g => negb (falsy (table (glyph_name g))))
                        aGlyphs).
Proof.
  induction aGlyphs as [|g rest IH]; [reflexivity|].
  cbn [collect List.filter]. destruct (collect table rest) as [kept warned].
  cbn [fst] in IH. destruct (falsy (table (glyph_name g))); cbn [negb].
  - destruct (negb _); exact IH.
  - cbn [List.map fst]. rewrite IH. reflexivity.
Qed.

(** What the loop warns about: the glyphs without a truthy entry,
    [.notdef] apart, which is dropped without a warning. *)
Lemma collect_warned table : forall aGlyphs,
  snd (collect table aGlyphs) =
  List.map glyph_name
    (List.filter
       (fun g => falsy (table (glyph_name g)) &&
                 negb (jsstring_eqb (glyph_name g) (js ".notdef")))
       aGlyphs).
Proof.
  induction aGlyphs as [|g rest IH]; [reflexivity|].
  cbn [collect List.filter]. destruct (collect table rest) as [kept warned].
  cbn [snd] in IH. destruct (falsy (table (glyph_name g))); cbn [andb].
  - destruct (negb _); cbn [snd List.map]; rewrite IH; reflexivity.
  - exact IH.
Qed.

Lemma insert_if_less_by_unicode x : forall l,
  insert_if_less by_unicode x l = l ++ [x].
Proof.
  induction l as [|y l IH]; simpl; [reflexivity|].
  unfold by_unicode at 1.
  destruct (unicode y <? unicode x); simpl; rewrite IH; reflexivity.
Qed.

(** Under the boolean comparison no element ever compares less than
    another, and a sort that moves an element only then moves
    nothing. *)
Lemma sort_if_less_by_unicode l : sort_if_less by_unicode l = l.
Proof.
  unfold sort_if_less.
  assert (H : forall acc,
             fold_left (fun acc x => insert_if_less by_unicode x acc) l acc
             = acc ++ l).
  { induction l as [|x l IH]; intros acc; simpl.
    - rewrite app_nil_r. reflexivity.
    - rewrite IH, insert_if_less_by_unicode, <- app_assoc. reflexivity. }
  apply H.
Qed.

Lemma insert_if_greater_perm {A} (cmp : A -> A -> Z) x : forall l,
  Permutation (insert_if_greater cmp x l) (x :: l).
Proof.
  induction l as [|y l IH]; simpl; [reflexivity|].
  destruct (0 <? cmp y x); [reflexivity|].
  rewrite IH. apply perm_swap.
Qed.

Lemma insert_if_less_perm {A} (cmp : A -> A -> Z) x : forall l,
  Permutation (insert_if_less cmp x l) (x :: l).
Proof.
  induction l as [|y l IH]; simpl; [reflexivity|].
  destruct (cmp x y <? 0); [reflexivity|].
  rewrite IH. apply perm_swap.
Qed.

Lemma fold_insert_perm {A} (ins : A -> list A -> list A) :
  (forall x l, Permutation (ins x l) (x :: l)) ->
  forall l acc,
    Permutation (fold_left (fun acc x => ins x acc) l acc) (acc ++ l).
Proof.
  intros Hins. induction l as [|x l IH]; intros acc; simpl.
  - rewrite app_nil_r. reflexivity.
  - rewrite IH, Hins. apply Permutation_middle.
Qed.

(** Both procedures return a rearrangement of their input, whatever
    the comparison function. *)
Lemma sort_if_greater_perm {A} (cmp : A -> A -> Z) l :
  Permutation (sort_if_greater cmp l) l.
Proof.
  unfold sort_if_greater.
  rewrite (fold_insert_perm (insert_if_greater cmp)
                            (insert_if_greater_perm cmp)).
  reflexivity.
Qed.

Lemma sort_if_less_perm {A} (cmp : A -> A -> Z) l :
  Permutation (sort_if_less cmp l) l.
Proof.
  unfold sort_if_less.
  rewrite (fold_insert_perm (insert_if_less cmp) (insert_if_less_perm cmp)).
  reflexivity.
Qed.

(** Insertion keeps a list ascending when its test agrees with the
    order of the code points. *)
Lemma insert_ascending
      (ins : charstring -> list charstring -> list charstring) :
  (forall x, ins x [] = [x]) ->
  (forall x y l, ins x (y :: l) =
                 if unicode x <? unicode y then x :: y :: l
                 else y :: ins x l) ->
  forall x l, ascending l -> ascending (ins x l).
Proof.
  intros Hnil Hcons x. unfold ascending.
  induction l as [|y l IH]; intros Hs.
  - rewrite Hnil. repeat constructor.
  - rewrite Hcons. destruct (Z.ltb_spec (unicode x) (unicode y)).
    + constructor; [exact Hs|]. constructor. lia.
    + apply Sorted_inv in Hs as [Hs Hhd].
      constructor; [apply IH; exact Hs|].
      destruct l as [|z l].
      * rewrite Hnil. constructor. lia.
      * rewrite Hcons. apply HdRel_inv in Hhd.
        destruct (unicode x <? unicode z); constructor; lia.
Qed.

Lemma fold_insert_ascending
      (ins : charstring -> list charstring -> list charstring) :
  (forall x l, ascending l -> ascending (ins x l)) ->
  forall l acc, ascending acc ->
  ascending (fold_left (fun acc x => ins x acc) l acc).
Proof.
  intros Hins. induction l as [|x l IH]; intros acc Hacc; simpl; auto.
Qed.

(** With the numeric comparison [a.unicode - b.unicode] both
    procedures sort. *)
Lemma sort_if_greater_by_difference_ascending l :
  ascending (sort_if_greater by_difference l).
Proof.
  apply (fold_insert_ascending (insert_if_greater by_difference));
    [|constructor].
  apply insert_ascending; [reflexivity|].
  intros x y l'. cbn [insert_if_greater]. unfold by_difference.
  destruct (Z.ltb_spec 0 (unicode y - unicode x)),
           (Z.ltb_spec (unicode x) (unicode y));
    try reflexivity; lia.
Qed.

Lemma sort_if_less_by_difference_ascending l :
  ascending (sort_if_less by_difference l).
Proof.
  apply (fold_insert_ascending (insert_if_less by_difference));
    [|constructor].
  apply insert_ascending; [reflexivity|].
  intros x y l'. cbn [insert_if_less]. unfold by_difference.
  destruct (Z.ltb_spec (unicode x - unicode y) 0),
           (Z.ltb_spec (unicode x) (unicode y));
    try reflexivity; lia.
Qed.

(** With the boolean comparison of the code, the procedure that tests
    for a positive result still sorts. *)
Lemma sort_if_greater_by_unicode_ascending l :
  ascending (sort_if_greater by_unicode l).
Proof.
  apply (fold_insert_ascending (insert_if_greater by_unicode));
    [|constructor].
  apply insert_ascending; [reflexivity|].
  intros x y l'. cbn [insert_if_greater]. unfold by_unicode.
  destruct (unicode x <? unicode y); reflexivity.
Qed.

Lemma getOrderedCharStrings_ascending_if_greater table aGlyphs :
  ascending (fst (getOrderedCharStrings table sort_if_greater aGlyphs)) /\
  Permutation (fst (getOrderedCharStrings table sort_if_greater aGlyphs))
              (fst (collect table aGlyphs)).
Proof.
  unfold getOrderedCharStrings. destruct (collect table aGlyphs) as [k w].
  cbn [fst]. split.
  - apply sort_if_greater_by_unicode_ascending.
  - apply sort_if_greater_perm.
Qed.

(** C8, the code at the failing input. The glyphs [B], [A] (code
    points 66 and 65), sorted by a procedure that moves an element only
    when the comparison function returns a negative number, come back
    in input order, [B] before [A]: the comparison function of the
    code returns a boolean, never a negative number. The same
    procedure sorts the same glyphs when it is given
    [a.unicode - b.unicode]. *)
Theorem getOrderedCharStrings_not_ascending :
  getOrderedCharStrings table_AB sort_if_less glyphs_B_A =
    ([mkCharstring (js "B") 66 [ICmd "endchar"];
      mkCharstring (js "A") 65 [ICmd "endchar"]], []) /\
  ~ ascending (fst (getOrderedCharStrings table_AB sort_if_less glyphs_B_A)) /\
  ascending (sort_if_less by_difference (fst (collect table_AB glyphs_B_A))).
Proof.
  split; [vm_compute; reflexivity|]. split.
  - intros H. vm_compute in H.
    apply Sorted_inv in H as [_ H]. apply HdRel_inv in H. exact (H eq_refl).
  - apply sort_if_less_by_difference_ascending.
Qed.

End CFFFacts.

(** * Further theorems *)

(** ** Lexer: tokens read off the data *)

Module LexerFullFacts.

Import Lexer LexerFull.

(** Reading the stream at a known place. *)
Lemma lookChar_at (pre rest : list Z) (c : Z) :
  byte c ->
  Stream.lookChar (Stream.mk (pre ++ c :: rest) (Z.of_nat (List.length pre)))
  = Some c.
Proof.
  intros Hc. unfold Stream.lookChar, Stream.length, Stream.byteAt.
  cbn [Stream.bytes Stream.pos]. rewrite length_app. cbn [List.length].
  replace (_ <=? _) with false by (symmetry; apply Z.leb_gt; lia).
  replace (_ <? 0) with false by (symmetry; apply Z.ltb_ge; lia).
  rewrite Nat2Z.id, nth_error_app2 by lia. rewrite Nat.sub_diag. simpl.
  f_equal. apply Z.mod_small. unfold byte in Hc. lia.
Qed.

Lemma lookChar_end (bs : list Z) (p : Z) :
  Z.of_nat (List.length bs) <= p -> Stream.lookChar (Stream.mk bs p) = None.
Proof.
  intros H. unfold Stream.lookChar, Stream.length. cbn [Stream.bytes Stream.pos].
  replace (_ <=? _) with true by (symmetry; apply Z.leb_le; lia). reflexivity.
Qed.

Lemma length_snoc (pre : list Z) (c : Z) :
  Z.of_nat (List.length (pre ++ [c])) = Z.of_nat (List.length pre) + 1.
Proof. rewrite length_app. simpl. lia. Qed.

Lemma app_snoc (pre : list Z) (c : Z) (rest : list Z) :
  pre ++ c :: rest = (pre ++ [c]) ++ rest.
Proof. rewrite <- app_assoc. reflexivity. Qed.

Lemma lookChar_ends (stop : Z -> bool) (bs rest : list Z) :
  ends_with stop rest ->
  match Stream.lookChar (Stream.mk (bs ++ rest) (Z.of_nat (List.length bs))) with
  | None => rest = []
  | Some c => stop c = true /\ exists rest', rest = c :: rest'
  end.
Proof.
  destruct rest as [|c rest]; intros H.
  - rewrite lookChar_end; [reflexivity|]. rewrite app_nil_r. lia.
  - destruct H as [Hb Hs]. rewrite lookChar_at by exact Hb. eauto.
Qed.

(** *** Names *)

Lemma getName_loop_plain (rest : list Z) (pr : list string) (h : list heapobj) :
  ends_with delimiter rest ->
  forall body pre str fuel,
    Forall name_char body ->
    (List.length body < fuel)%nat ->
    getName_loop fuel
      (mkState (Stream.mk (pre ++ body ++ rest) (Z.of_nat (List.length pre))) pr h)
      str =
    Some (Ok (str ++ body,
              mkState (Stream.mk (pre ++ body ++ rest)
                         (Z.of_nat (List.length pre) + Z.of_nat (List.length body)))
                      pr h)).
Proof.
  intros Hrest. induction body as [|c body IH]; intros pre str fuel Hb Hf.
  - destruct fuel as [|fuel]; [simpl in Hf; lia|].
    cbn [getName_loop stream app List.length].
    rewrite app_nil_r, Z.add_0_r.
    pose proof (lookChar_ends delimiter pre rest Hrest) as Hl.
    destruct (Stream.lookChar _) as [c|].
    + destruct Hl as [Hs _]. unfold delimiter in Hs. rewrite Hs. reflexivity.
    + reflexivity.
  - destruct fuel as [|fuel]; [simpl in Hf; lia|].
    inversion Hb as [|? ? [Hc [Hsp Hne]] Hb']; subst.
    cbn [getName_loop stream app].
    rewrite lookChar_at by exact Hc. rewrite Hsp. cbn [Z.eqb negb].
    replace (c =? 35) with false by (symmetry; apply Z.eqb_neq; exact Hne).
    unfold with_stream.
    cbn [stream printed heap Stream.getChar snd Stream.bytes Stream.pos].
    rewrite (app_snoc pre c (body ++ rest)), <- (length_snoc pre c).
    rewrite IH by (auto; simpl in Hf; lia).
    rewrite <- !app_assoc, length_snoc. cbn [app List.length].
    replace (Z.of_nat (List.length pre) + 1 + Z.of_nat (List.length body))
      with (Z.of_nat (List.length pre) + Z.of_nat (S (List.length body))) by lia.
    reflexivity.
Qed.

(** A name without escapes is lexed to exactly the bytes up to the
    next delimiter, the stream is left at that delimiter, and a new
    Name object holds the text; the only trace is the warning for a
    name of more than 128 bytes. *)
Theorem getName_plain (pre body rest : list Z) (h : list heapobj) :
  Forall name_char body ->
  ends_with delimiter rest ->
  getName (at_pos (pre ++ body ++ rest) (Z.of_nat (List.length pre)) h) =
  Some (Ok (TRef (List.length h),
            mkState
              (Stream.mk (pre ++ body ++ rest)
                         (Z.of_nat (List.length pre) + Z.of_nat (List.length body)))
              (if 128 <? Z.of_nat (List.length body)
               then ["Warning: name token is longer than allowed by the specification"%string]
               else [])
              (h ++ [HName body]))).
Proof.
  intros Hb Hrest. unfold getName, at_pos.
  rewrite (getName_loop_plain rest [] h Hrest body pre []); [|exact Hb|].
  - cbn [app]. destruct (128 <? _); reflexivity.
  - unfold getName_fuel, Stream.length. cbn [stream Stream.bytes Stream.pos].
    rewrite !length_app. lia.
Qed.

Lemma getName_plain_witness :
  getName (at_pos ([47] ++ js "Type" ++ js " /Font") (Z.of_nat (List.length [47])) []) =
  Some (Ok (TRef (List.length (@nil heapobj)),
            mkState
              (Stream.mk ([47] ++ js "Type" ++ js " /Font")
                 (Z.of_nat (List.length [47]) + Z.of_nat (List.length (js "Type"))))
              (if 128 <? Z.of_nat (List.length (js "Type"))
               then ["Warning: name token is longer than allowed by the specification"%string]
               else [])
              ([] ++ [HName (js "Type")]))).
Proof.
  apply (getName_plain [47] (js "Type") (js " /Font") []).
  - vm_compute. repeat constructor; discriminate.
  - vm_compute. repeat constructor; discriminate.
Defined.

(** *** Commands *)

Lemma getCommand_loop_plain (rest : list Z) (pr : list string) (h : list heapobj) :
  ends_with delimiter rest ->
  forall body pre str fuel,
    Forall cmd_char body ->
    (List.length str + List.length body <= 128)%nat ->
    (List.length body < fuel)%nat ->
    getCommand_loop fuel
      (mkState (Stream.mk (pre ++ body ++ rest) (Z.of_nat (List.length pre))) pr h)
      str =
    Some (Ok (str ++ body,
              mkState (Stream.mk (pre ++ body ++ rest)
                         (Z.of_nat (List.length pre) + Z.of_nat (List.length body)))
                      pr h)).
Proof.
  intros Hrest. induction body as [|c body IH]; intros pre str fuel Hb Hlen Hf.
  - destruct fuel as [|fuel]; [simpl in Hf; lia|].
    cbn [getCommand_loop stream app List.length].
    rewrite app_nil_r, Z.add_0_r.
    pose proof (lookChar_ends delimiter pre rest Hrest) as Hl.
    destruct (Stream.lookChar _) as [c|].
    + destruct Hl as [Hs _]. unfold delimiter in Hs. rewrite Hs. reflexivity.
    + reflexivity.
  - destruct fuel as [|fuel]; [simpl in Hf; lia|].
    inversion Hb as [|? ? [Hc Hsp] Hb']; subst.
    cbn [getCommand_loop stream app].
    rewrite lookChar_at by exact Hc. rewrite Hsp. cbn [Z.eqb negb].
    replace (Z.of_nat (List.length str) =? 128) with false
      by (symmetry; apply Z.eqb_neq; simpl in Hlen; lia).
    unfold with_stream.
    cbn [stream printed heap Stream.getChar snd Stream.bytes Stream.pos].
    rewrite (app_snoc pre c (body ++ rest)), <- (length_snoc pre c).
    rewrite IH; [|exact Hb'|rewrite length_app; simpl in *; lia|simpl in Hf; lia].
    rewrite <- !app_assoc, length_snoc. cbn [app List.length].
    replace (Z.of_nat (List.length pre) + 1 + Z.of_nat (List.length body))
      with (Z.of_nat (List.length pre) + Z.of_nat (S (List.length body))) by lia.
    reflexivity.
Qed.

(** A run of command characters that takes the token past 128
    characters ends in the call of the unbound [error]. *)
Lemma getCommand_loop_long (pr : list string) (h : list heapobj) :
  forall body pre rest str fuel,
    Forall cmd_char body ->
    (List.length str <= 128)%nat ->
    (128 < List.length str + List.length body)%nat ->
    (List.length body < fuel)%nat ->
    getCommand_loop fuel
      (mkState (Stream.mk (pre ++ body ++ rest) (Z.of_nat (List.length pre))) pr h)
      str =
    Some (Throw (ReferenceError "error")).
Proof.
  induction body as [|c body IH]; intros pre rest str fuel Hb Hs Hlen Hf.
  - simpl in Hlen. lia.
  - destruct fuel as [|fuel]; [simpl in Hf; lia|].
    inversion Hb as [|? ? [Hc Hsp] Hb']; subst.
    cbn [getCommand_loop stream app].
    rewrite lookChar_at by exact Hc. rewrite Hsp. cbn [Z.eqb negb].
    destruct (Z.eqb_spec (Z.of_nat (List.length str)) 128) as [E|E];
      [reflexivity|].
    unfold with_stream.
    cbn [stream printed heap Stream.getChar snd Stream.bytes Stream.pos].
    rewrite (app_snoc pre c (body ++ rest)), <- (length_snoc pre c).
    apply IH; [exact Hb'| | |simpl in Hf; lia];
      rewrite length_app; simpl in *; lia.
Qed.

(** A token of at most 128 characters that starts with [ch] and runs
    to the next delimiter is lexed whole and the stream is left at the
    delimiter: [true], [false] and [null] become the values, every
    other text a new Cmd object. *)
Theorem getObj_command_plain (ch : Z) (pre body rest : list Z)
        (h : list heapobj) :
  Forall cmd_char body ->
  ends_with delimiter rest ->
  (List.length body < 128)%nat ->
  let text := ch :: body in
  let st_end := fun h' =>
    mkState (Stream.mk (pre ++ body ++ rest)
               (Z.of_nat (List.length pre) + Z.of_nat (List.length body)))
            [] h' in
  getObj_command ch
    (at_pos (pre ++ body ++ rest) (Z.of_nat (List.length pre)) h) =
  Some (Ok (if jsstring_eqb text (js "true") then (TBool true, st_end h)
            else if jsstring_eqb text (js "false") then (TBool false, st_end h)
            else if jsstring_eqb text (js "null") then (TNull, st_end h)
            else (TRef (List.length h), st_end (h ++ [HCmd text])))).
Proof.
  intros Hb Hrest Hlen text st_end. unfold getObj_command, at_pos.
  rewrite (getCommand_loop_plain rest [] h Hrest body pre [ch]);
    [|exact Hb|simpl; lia|].
  - cbn [app]. fold text.
    destruct (jsstring_eqb text (js "true")); [reflexivity|].
    destruct (jsstring_eqb text (js "false")); [reflexivity|].
    destruct (jsstring_eqb text (js "null")); reflexivity.
  - unfold getName_fuel, Stream.length. cbn [stream Stream.bytes Stream.pos].
    rewrite !length_app. lia.
Qed.

Lemma getObj_command_plain_witness :
  let text := 66 :: js "T" in
  let st_end := fun h' =>
    mkState (Stream.mk (js "B" ++ js "T" ++ js " /F1")
               (Z.of_nat (List.length (js "B")) + Z.of_nat (List.length (js "T"))))
            [] h' in
  getObj_command 66
    (at_pos (js "B" ++ js "T" ++ js " /F1") (Z.of_nat (List.length (js "B"))) []) =
  Some (Ok (if jsstring_eqb text (js "true") then (TBool true, st_end [])
            else if jsstring_eqb text (js "false") then (TBool false, st_end [])
            else if jsstring_eqb text (js "null") then (TNull, st_end [])
            else (TRef (List.length (@nil heapobj)), st_end ([] ++ [HCmd text])))).
Proof.
  apply (getObj_command_plain 66 (js "B") (js "T") (js " /F1") []).
  - vm_compute. repeat constructor; discriminate.
  - vm_compute. repeat constructor; discriminate.
  - vm_compute. lia.
Defined.

(** A command token of more than 128 characters is not lexed: the
    lexer throws (the call of [error], which pdf.js does not
    declare). *)
Theorem getObj_command_too_long (ch : Z) (pre body rest : list Z)
        (h : list heapobj) :
  Forall cmd_char body ->
  (128 <= List.length body)%nat ->
  getObj_command ch
    (at_pos (pre ++ body ++ rest) (Z.of_nat (List.length pre)) h) =
  Some (Throw (ReferenceError "error")).
Proof.
  intros Hb Hlen. unfold getObj_command, at_pos.
  rewrite (getCommand_loop_long [] h body pre rest [ch]);
    [reflexivity|exact Hb|simpl; lia|simpl; lia|].
  unfold getName_fuel, Stream.length. cbn [stream Stream.bytes Stream.pos].
  rewrite !length_app. lia.
Qed.

Lemma getObj_command_too_long_witness :
  getObj_command 97
    (at_pos ([97] ++ repeat 97 128 ++ [32]) (Z.of_nat (List.length [97])) []) =
  Some (Throw (ReferenceError "error")).
Proof.
  apply (getObj_command_too_long 97 [97] (repeat 97 128) [32] []).
  - apply Forall_forall. intros x Hx. apply list_elem_of_In in Hx.
    apply repeat_spec in Hx. subst x. vm_compute. repeat split; discriminate.
  - rewrite repeat_length. lia.
Defined.

End LexerFullFacts.

(** ** Interpreter: whole content streams *)

Module StatementsFacts.

Import Interpreter Statements.





Lemma interpLoop_stops_at_EOF gfx : forall pre args rest,
  interpLoop gfx args (pre ++ OEOF :: rest) = interpLoop gfx args (pre ++ [OEOF]).
Proof.
  induction pre as [|o pre IH]; intros args rest; [reflexivity|].
  destruct o; cbn [app interpLoop IsEOF]; try apply IH; try reflexivity.
  destruct (gfx cmd); [|reflexivity].
  destruct (not_dollar cmd); [|reflexivity].
  destruct (negb _); [reflexivity|].
  rewrite IH. reflexivity.
Qed.

(** Nothing after the first EOF is read: the calls and the outcome
    are those of the stream cut after that EOF. *)
Theorem interpretHelper_stops_at_EOF (gfx : sink) (mediaBox : Z * Z * Z * Z)
        (pre rest : list obj) :
  interpretHelper gfx mediaBox (pre ++ OEOF :: rest) =
  interpretHelper gfx mediaBox (pre ++ [OEOF]).
Proof.
  unfold interpretHelper. rewrite interpLoop_stops_at_EOF. reflexivity.
Qed.



(** A command named after a member that [gfx] inherits is dispatched
    like an operator: [toString] without operands calls
    [gfx.toString()]. *)
Lemma interpretHelper_inherited_member :
  interpretHelper EchoGraphics (0, 0, 612, 792) [OCmd (js "toString"); OEOF] =
  ([BeginDrawing (mkBox 0 0 612 792); Apply (js "toString") []; EndDrawing],
   Returned []).
Proof. vm_compute. reflexivity. Qed.

End StatementsFacts.

(** ** XRef and Linearization: witnesses *)

Module MoreWitnesses.


Lemma PDFDoc_linearization_without_dict_witness :
  Linearization.PDFDoc_linearization 1000
    (OInt 1 :: OInt 0 :: OCmd (js "obj") :: OCmd (js "<") :: [OName (js "Linearized")])
  = Ok None.
Proof.
  apply (LinearizationFacts.PDFDoc_linearization_without_dict 1000
           (OInt 1) (OInt 0) (OCmd (js "obj")) (OCmd (js "<"))
           [OName (js "Linearized")]).
  reflexivity.
Defined.

End MoreWitnesses.

(** ** Lexer: [getObj] over blanks, punctuation, numbers and strings *)

Module LexerObjFacts.

Import Lexer LexerFull LexerChars.

Lemma getChar_at (pre rest : list Z) (c : Z) :
  byte c ->
  Stream.getChar (Stream.mk (pre ++ c :: rest) (Z.of_nat (List.length pre)))
  = (Some c, Stream.mk (pre ++ c :: rest) (Z.of_nat (List.length pre) + 1)).
Proof.
  intros Hc. unfold Stream.getChar.
  rewrite LexerFullFacts.lookChar_at by exact Hc. reflexivity.
Qed.

Lemma getChar_end (bs : list Z) (p : Z) :
  Z.of_nat (List.length bs) <= p ->
  Stream.getChar (Stream.mk bs p) = (None, Stream.mk bs (p + 1)).
Proof.
  intros H. unfold Stream.getChar.
  rewrite LexerFullFacts.lookChar_end by exact H. reflexivity.
Qed.

Lemma white_not_percent (c : Z) : white c = true -> (c =? 37) = false.
Proof.
  intros H. destruct (Z.eqb_spec c 37) as [->|]; [discriminate H|reflexivity].
Qed.

Lemma skip_loop_white (rest : list Z) (pr : list string) (h : list heapobj) :
  forall ws pre fuel,
    Forall white_char ws ->
    skip_loop (List.length ws + fuel)
      (mkState (Stream.mk (pre ++ ws ++ rest) (Z.of_nat (List.length pre))) pr h)
      false =
    skip_loop fuel
      (mkState (Stream.mk (pre ++ ws ++ rest)
                  (Z.of_nat (List.length pre) + Z.of_nat (List.length ws))) pr h)
      false.
Proof.
  induction ws as [|c ws IH]; intros pre fuel Hws.
  - cbn [List.length Nat.add]. rewrite Z.add_0_r. reflexivity.
  - inversion Hws as [|? ? [Hc Hw] Hws']; subst.
    cbn [List.length Nat.add skip_loop stream app].
    rewrite getChar_at by exact Hc.
    rewrite (white_not_percent c Hw).
    unfold white in Hw. rewrite Hw. cbn [negb].
    unfold with_stream. cbn [printed heap].
    rewrite (LexerFullFacts.app_snoc pre c (ws ++ rest)),
      <- (LexerFullFacts.length_snoc pre c).
    rewrite IH by exact Hws'.
    rewrite LexerFullFacts.length_snoc.
    replace (Z.of_nat (List.length pre) + 1 + Z.of_nat (List.length ws))
      with (Z.of_nat (List.length pre) + Z.of_nat (S (List.length ws))) by lia.
    reflexivity.
Qed.

Lemma skip_loop_comment (rest : list Z) (pr : list string) (h : list heapobj) :
  forall body pre fuel,
    Forall comment_char body ->
    skip_loop (List.length body + fuel)
      (mkState (Stream.mk (pre ++ body ++ rest) (Z.of_nat (List.length pre))) pr h)
      true =
    skip_loop fuel
      (mkState (Stream.mk (pre ++ body ++ rest)
                  (Z.of_nat (List.length pre) + Z.of_nat (List.length body))) pr h)
      true.
Proof.
  induction body as [|c body IH]; intros pre fuel Hb.
  - cbn [List.length Nat.add]. rewrite Z.add_0_r. reflexivity.
  - inversion Hb as [|? ? [Hc [H13 H10]] Hb']; subst.
    cbn [List.length Nat.add skip_loop stream app].
    rewrite getChar_at by exact Hc.
    replace (c =? 13) with false by (symmetry; apply Z.eqb_neq; exact H13).
    replace (c =? 10) with false by (symmetry; apply Z.eqb_neq; exact H10).
    cbn [orb negb].
    unfold with_stream. cbn [printed heap].
    rewrite (LexerFullFacts.app_snoc pre c (body ++ rest)),
      <- (LexerFullFacts.length_snoc pre c).
    rewrite IH by exact Hb'.
    rewrite LexerFullFacts.length_snoc.
    replace (Z.of_nat (List.length pre) + 1 + Z.of_nat (List.length body))
      with (Z.of_nat (List.length pre) + Z.of_nat (S (List.length body))) by lia.
    reflexivity.
Qed.

Lemma fuel_at (bs : list Z) (p : nat) (pr : list string) (h : list heapobj) :
  (p <= List.length bs)%nat ->
  getName_fuel (mkState (Stream.mk bs (Z.of_nat p)) pr h)
  = S (List.length bs - p).
Proof.
  intros H. unfold getName_fuel, Stream.length.
  cbn [stream Stream.bytes Stream.pos]. f_equal. lia.
Qed.

(** [getObj] skips white space: a run of white-space bytes before a
    token changes nothing but the position the token is read from. *)
Theorem getObj_skips_white (pre ws rest : list Z) (h : list heapobj) :
  Forall white_char ws ->
  getObj (at_pos (pre ++ ws ++ rest) (Z.of_nat (List.length pre)) h) =
  getObj (at_pos (pre ++ ws ++ rest)
            (Z.of_nat (List.length pre) + Z.of_nat (List.length ws)) h).
Proof.
  intros Hws. unfold getObj, at_pos.
  rewrite <- (Nat2Z.inj_add (List.length pre) (List.length ws)).
  rewrite !fuel_at by (rewrite !length_app; lia).
  replace (S (List.length (pre ++ ws ++ rest) - List.length pre))
    with (List.length ws
          + S (List.length (pre ++ ws ++ rest)
               - (List.length pre + List.length ws)))%nat
    by (rewrite !length_app; lia).
  rewrite skip_loop_white by exact Hws.
  rewrite <- Nat2Z.inj_add. reflexivity.
Qed.

Lemma getObj_skips_white_witness :
  getObj (at_pos (js "1 0 obj" ++ js "  " ++ js "/Type") 7 []) =
  getObj (at_pos (js "1 0 obj" ++ js "  " ++ js "/Type") 9 []).
Proof.
  apply (getObj_skips_white (js "1 0 obj") (js "  ") (js "/Type") []).
  repeat constructor; vm_compute; try discriminate; reflexivity.
Defined.

(** [getObj] skips comments: a [%], the bytes up to the next line
    end and that line end change nothing but the position the token
    is read from. *)
Theorem getObj_skips_comment (pre body rest : list Z) (eol : Z)
        (h : list heapobj) :
  Forall comment_char body ->
  eol = 13 \/ eol = 10 ->
  getObj (at_pos (pre ++ (37 :: body ++ [eol]) ++ rest)
            (Z.of_nat (List.length pre)) h) =
  getObj (at_pos (pre ++ (37 :: body ++ [eol]) ++ rest)
            (Z.of_nat (List.length pre) + Z.of_nat (List.length body) + 2) h).
Proof.
  intros Hb Heol.
  assert (Hbe : byte eol) by (unfold byte; destruct Heol; subst; lia).
  unfold getObj, at_pos.
  replace (Z.of_nat (List.length pre) + Z.of_nat (List.length body) + 2)
    with (Z.of_nat (List.length pre + List.length body + 2)) by lia.
  rewrite !fuel_at by (rewrite !length_app; cbn [List.length];
                       rewrite ?length_app; cbn [List.length]; lia).
  replace (Nat.sub (List.length (pre ++ (37 :: body ++ [eol]) ++ rest))
                   (List.length pre))
    with (List.length body + S (S (List.length rest)))%nat
    by (rewrite !length_app; cbn [List.length];
        rewrite ?length_app; cbn [List.length]; lia).
  replace (Nat.sub (List.length (pre ++ (37 :: body ++ [eol]) ++ rest))
                   (List.length pre + List.length body + 2))
    with (List.length rest)
    by (rewrite !length_app; cbn [List.length];
        rewrite ?length_app; cbn [List.length]; lia).
  (* the percent sign *)
  cbn [skip_loop stream app].
  rewrite getChar_at by (unfold byte; lia).
  cbn [Z.eqb Pos.eqb]. unfold with_stream. cbn [printed heap].
  (* the body of the comment *)
  rewrite (LexerFullFacts.app_snoc pre 37 ((body ++ [eol]) ++ rest)),
    <- (LexerFullFacts.length_snoc pre 37).
  rewrite <- (app_assoc body [eol] rest).
  rewrite skip_loop_comment by exact Hb.
  (* the line end *)
  cbn [skip_loop stream].
  replace (Z.of_nat (List.length (pre ++ [37])) + Z.of_nat (List.length body))
    with (Z.of_nat (List.length ((pre ++ [37]) ++ body)))
    by (rewrite !length_app; cbn [List.length]; lia).
  rewrite (app_assoc (pre ++ [37]) body ([eol] ++ rest)).
  cbn [app]. rewrite getChar_at by exact Hbe.
  replace (negb ((eol =? 13) || (eol =? 10))) with false
    by (destruct Heol; subst; reflexivity).
  unfold with_stream. cbn [printed heap].
  replace (Z.of_nat (List.length ((pre ++ [37]) ++ body)) + 1)
    with (Z.of_nat (List.length pre + List.length body + 2))
    by (rewrite !length_app; cbn [List.length]; lia).
  reflexivity.
Qed.

Lemma getObj_skips_comment_witness :
  getObj (at_pos (js "q" ++ (37 :: js "PDF-1.4" ++ [10]) ++ js "1 0 obj") 1 []) =
  getObj (at_pos (js "q" ++ (37 :: js "PDF-1.4" ++ [10]) ++ js "1 0 obj")
            (1 + 7 + 2) []).
Proof.
  apply (getObj_skips_comment (js "q") (js "PDF-1.4") (js "1 0 obj") 10 []).
  - repeat constructor; vm_compute; try discriminate; reflexivity.
  - right. reflexivity.
Defined.

(** At the end of the data, also after a run of white space,
    [getObj] returns EOF; the position moves one past the end. *)
Theorem getObj_at_end (pre ws : list Z) (h : list heapobj) :
  Forall white_char ws ->
  getObj (at_pos (pre ++ ws) (Z.of_nat (List.length pre)) h) =
  Some (Ok (LEOF,
            at_pos (pre ++ ws)
              (Z.of_nat (List.length pre) + Z.of_nat (List.length ws) + 1) h)).
Proof.
  intros Hws. unfold getObj, at_pos.
  rewrite fuel_at by (rewrite length_app; lia).
  replace (S (List.length (pre ++ ws) - List.length pre))
    with (List.length ws + 1)%nat by (rewrite length_app; lia).
  pose proof (skip_loop_white [] [] h ws pre 1 Hws) as E.
  rewrite app_nil_r in E. rewrite E.
  cbn [skip_loop stream].
  rewrite getChar_end by (cbn [Stream.bytes]; rewrite length_app; lia).
  reflexivity.
Qed.

Lemma getObj_at_end_witness :
  getObj (at_pos (js "endobj" ++ [32; 10]) 6 []) =
  Some (Ok (LEOF, at_pos (js "endobj" ++ [32; 10]) (6 + 2 + 1) [])).
Proof.
  apply (getObj_at_end (js "endobj") [32; 10] []).
  repeat constructor; vm_compute; try discriminate; reflexivity.
Defined.

(** Dictionary punctuation: on [<<] and on [>>], [getObj] consumes
    both characters and returns a new Cmd holding one of them, [<] or
    [>]: the text is the character looked at, not the pair. *)
Theorem getObj_dict_punctuation (c : Z) (pre rest : list Z)
        (h : list heapobj) :
  c = 60 \/ c = 62 ->
  getObj (at_pos (pre ++ c :: c :: rest) (Z.of_nat (List.length pre)) h) =
  Some (Ok (LToken (TRef (List.length h)),
            mkState (Stream.mk (pre ++ c :: c :: rest)
                       (Z.of_nat (List.length pre) + 2))
                    [] (h ++ [HCmd [c]]))).
Proof.
  intros Hc.
  assert (Hb : byte c) by (unfold byte; destruct Hc; subst; lia).
  unfold getObj, at_pos.
  rewrite fuel_at by (rewrite length_app; lia).
  cbn [skip_loop stream].
  rewrite getChar_at by exact Hb.
  replace (c =? 37) with false by (destruct Hc; subst; reflexivity).
  replace (negb (specialChars c =? 1)) with true
    by (destruct Hc; subst; reflexivity).
  replace (is_digit c || (c =? 43) || (c =? 45) || (c =? 46)) with false
    by (destruct Hc; subst; reflexivity).
  replace (c =? 40) with false by (destruct Hc; subst; reflexivity).
  replace (c =? 47) with false by (destruct Hc; subst; reflexivity).
  replace ((c =? 91) || (c =? 93)) with false
    by (destruct Hc; subst; reflexivity).
  unfold with_stream. cbn [printed heap stream].
  rewrite (LexerFullFacts.app_snoc pre c (c :: rest)),
    <- (LexerFullFacts.length_snoc pre c).
  unfold Stream.getChar.
  rewrite LexerFullFacts.lookChar_at by exact Hb.
  cbn [snd Stream.bytes Stream.pos].
  rewrite LexerFullFacts.length_snoc.
  replace (Z.of_nat (List.length pre) + 1 + 1)
    with (Z.of_nat (List.length pre) + 2) by lia.
  destruct Hc; subst c; reflexivity.
Qed.

Lemma getObj_dict_punctuation_witness :
  getObj (at_pos (js "obj" ++ 60 :: 60 :: js "/Type /Catalog>>") 3 []) =
  Some (Ok (LToken (TRef 0),
            mkState (Stream.mk (js "obj" ++ 60 :: 60 :: js "/Type /Catalog>>")
                       (3 + 2))
                    [] [HCmd [60]])).
Proof.
  apply (getObj_dict_punctuation 60 (js "obj") (js "/Type /Catalog>>") []).
  left. reflexivity.
Defined.

Lemma cmd_text_new (o : heapobj) (st : state) :
  cmd_text (snd (new o st)) (LToken (TRef (fst (new o st)))) =
  match o with
  | HCmd s => Some s
  | HName _ => None
  end.
Proof.
  unfold new, cmd_text. cbn [fst snd heap].
  rewrite nth_error_app2 by lia. rewrite Nat.sub_diag. destruct o; reflexivity.
Qed.

Lemma getCommand_loop_prefix : forall fuel st str str' st',
  getCommand_loop fuel st str = Some (Ok (str', st')) ->
  exists t, str' = str ++ t.
Proof.
  induction fuel as [|fuel IH]; intros st str str' st' H; [discriminate|].
  cbn [getCommand_loop] in H.
  destruct (Stream.lookChar (stream st)) as [ch|].
  - destruct (negb (specialChars ch =? 0)).
    + injection H as <- _. exists []. rewrite app_nil_r. reflexivity.
    + destruct (Z.of_nat (List.length str) =? 128); [discriminate|].
      apply IH in H. destruct H as [t ->]. exists (ch :: t).
      rewrite <- app_assoc. reflexivity.
  - injection H as <- _. exists []. rewrite app_nil_r. reflexivity.
Qed.

(** [getObj] never returns the command [<<] or the command [>>],
    whatever the data: the two tokens the parser tests to build a
    dictionary do not come out of the lexer. *)
Theorem getObj_never_dict_command (st st' : state) (l : lexeme) :
  getObj st = Some (Ok (l, st')) ->
  cmd_text st' l <> Some (js "<<") /\ cmd_text st' l <> Some (js ">>").
Proof.
  unfold getObj.
  destruct (skip_loop (getName_fuel st) st false) as [[[ch|] st1]|];
    [|intros [= <- <-]; split; discriminate|discriminate].
  destruct (is_digit ch || (ch =? 43) || (ch =? 45) || (ch =? 46)).
  { unfold getNumber.
    destruct (getNumber_loop _ _ _ _) as [[s st2]|]; [|discriminate].
    destruct (parseFloat_isNaN s); intros [= <- <-]; split; discriminate. }
  destruct (ch =? 40).
  { unfold getString.
    destruct (getString_loop _ _ _) as [[[s st2]|e]|]; try discriminate.
    destruct s; intros [= <- <-]; split; discriminate. }
  destruct (ch =? 47).
  { unfold getName.
    destruct (getName_loop _ _ _) as [[[s st2]|e]|]; try discriminate.
    cbn [lift]. set (st3 := if 128 <? _ then _ else _).
    destruct (new (HName s) st3) as [r st4] eqn:E. cbn [lift].
    intros [= <- <-].
    pose proof (cmd_text_new (HName s) st3) as T. rewrite E in T.
    cbn [fst snd] in T. rewrite T. split; discriminate. }
  destruct ((ch =? 91) || (ch =? 93)) eqn:Eb.
  { unfold new_Cmd. destruct (new (HCmd [ch]) st1) as [r st4] eqn:E.
    intros [= <- <-].
    pose proof (cmd_text_new (HCmd [ch]) st1) as T. rewrite E in T.
    cbn [fst snd] in T. rewrite T. split; discriminate. }
  destruct (Z.eqb_spec ch 60) as [E60|N60].
  { destruct (Stream.lookChar (stream st1)) as [d|].
    - destruct (Z.eqb_spec d 60) as [->|Nd].
      + unfold new_Cmd.
        set (st2 := with_stream st1 _).
        destruct (new (HCmd [60]) st2) as [r st4] eqn:E.
        intros [= <- <-].
        pose proof (cmd_text_new (HCmd [60]) st2) as T. rewrite E in T.
        cbn [fst snd] in T. rewrite T. split; discriminate.
      + assert (H : forall (A : Type) (x y : A),
                   match d with 60 => x | _ => y end = y).
        { intros A x y. destruct d as [|p|p]; try reflexivity.
          repeat (destruct p as [p|p|]; try reflexivity). congruence. }
        rewrite H. unfold getHexString.
        destruct (Stream.getChar (stream st1)) as [[e|] s1].
        * destruct (Z.eqb_spec e 62) as [->|Ne].
          -- intros [= <- <-]; split; discriminate.
          -- assert (H2 : forall (A : Type) (x y : A),
                       match e with 62 => x | _ => y end = y).
             { intros A x y. destruct e as [|p|p]; try reflexivity.
               repeat (destruct p as [p|p|]; try reflexivity). congruence. }
             rewrite H2. discriminate.
        * intros [= <- <-]; split; discriminate.
    - unfold getHexString.
      destruct (Stream.getChar (stream st1)) as [[e|] s1].
      + destruct (Z.eqb_spec e 62) as [->|Ne].
        * intros [= <- <-]; split; discriminate.
        * assert (H2 : forall (A : Type) (x y : A),
                     match e with 62 => x | _ => y end = y).
          { intros A x y. destruct e as [|p|p]; try reflexivity.
            repeat (destruct p as [p|p|]; try reflexivity). congruence. }
          rewrite H2. discriminate.
      + intros [= <- <-]; split; discriminate. }
  destruct (Z.eqb_spec ch 62) as [E62|N62].
  { destruct (Stream.lookChar (stream st1)) as [d|].
    - destruct (Z.eqb_spec d 62) as [->|Nd].
      + unfold new_Cmd.
        set (st2 := with_stream st1 _).
        destruct (new (HCmd [62]) st2) as [r st4] eqn:E.
        intros [= <- <-].
        pose proof (cmd_text_new (HCmd [62]) st2) as T. rewrite E in T.
        cbn [fst snd] in T. rewrite T. split; discriminate.
      + assert (H : forall (A : Type) (x y : A),
                   match d with 62 => x | _ => y end = y).
        { intros A x y. destruct d as [|p|p]; try reflexivity.
          repeat (destruct p as [p|p|]; try reflexivity). congruence. }
        rewrite H. intros [= <- <-]; split; discriminate.
    - intros [= <- <-]; split; discriminate. }
  destruct ((ch =? 41) || (ch =? 123) || (ch =? 125)).
  { intros [= <- <-]; split; discriminate. }
  unfold getObj_command.
  destruct (getCommand_loop _ _ _) as [[[s st2]|e]|] eqn:EL; try discriminate.
  apply getCommand_loop_prefix in EL. destruct EL as [t ->].
  cbn [app].
  destruct (jsstring_eqb _ _); [intros [= <- <-]; split; discriminate|].
  destruct (jsstring_eqb _ _); [intros [= <- <-]; split; discriminate|].
  destruct (jsstring_eqb _ _); [intros [= <- <-]; split; discriminate|].
  destruct (new (HCmd (ch :: t)) st2) as [r st4] eqn:E. cbn [lift].
  intros [= <- <-].
  pose proof (cmd_text_new (HCmd (ch :: t)) st2) as T. rewrite E in T.
  cbn [fst snd] in T. rewrite T.
  change (js "<<") with [60; 60]. change (js ">>") with [62; 62].
  split; intros [= Hch _]; congruence.
Qed.

Lemma getObj_never_dict_command_witness :
  let st := at_pos (js "<< /Linearized 1 >>") 0 [] in
  let st' := mkState (Stream.mk (js "<< /Linearized 1 >>") 2) [] [HCmd (js "<")] in
  cmd_text st' (LToken (TRef 0)) <> Some (js "<<") /\
  cmd_text st' (LToken (TRef 0)) <> Some (js ">>").
Proof.
  intros st st'.
  apply (getObj_never_dict_command st st' (LToken (TRef 0))).
  vm_compute. reflexivity.
Defined.

(** *** Numbers *)

Lemma is_digit_byte_cases (c : Z) :
  is_digit c = true ->
  (c =? 46) = false /\ (c =? 45) = false /\ (c =? 43) = false.
Proof.
  unfold is_digit. intros H. apply andb_prop in H. destruct H as [H1 H2].
  apply Z.leb_le in H1. apply Z.leb_le in H2.
  repeat split; apply Z.eqb_neq; lia.
Qed.

Lemma getNumber_loop_body (rest : list Z) (h : list heapobj) :
  ends_with number_end rest ->
  forall body pre pr floating str fuel,
    Forall num_char body ->
    (List.length body < fuel)%nat ->
    getNumber_loop fuel
      (mkState (Stream.mk (pre ++ body ++ rest) (Z.of_nat (List.length pre))) pr h)
      floating str =
    Some (str ++ List.filter is_digit body,
          mkState (Stream.mk (pre ++ body ++ rest)
                     (Z.of_nat (List.length pre) + Z.of_nat (List.length body)))
                  (pr ++ List.repeat "Badly formated number"%string
                           (List.length (List.filter (fun c => c =? 45) body)))
                  h).
Proof.
  intros Hrest. induction body as [|c body IH];
    intros pre pr floating str fuel Hb Hf.
  - destruct fuel as [|fuel]; [simpl in Hf; lia|].
    cbn [getNumber_loop stream app List.length List.filter List.repeat].
    rewrite !app_nil_r, Z.add_0_r.
    destruct rest as [|c rest].
    + rewrite app_nil_r.
      rewrite getChar_end by (cbn [Stream.bytes]; lia).
      unfold with_stream, Stream.putBack.
      cbn [printed heap Stream.bytes Stream.pos].
      replace (Z.of_nat (List.length pre) + 1 - 1)
        with (Z.of_nat (List.length pre)) by lia.
      reflexivity.
    + destruct Hrest as [Hc Hs]. rewrite getChar_at by exact Hc.
      unfold number_end in Hs. apply negb_true_iff in Hs.
      apply orb_false_elim in Hs. destruct Hs as [Hs H69].
      apply orb_false_elim in Hs. destruct Hs as [Hs H101].
      apply orb_false_elim in Hs. destruct Hs as [Hs H45].
      apply orb_false_elim in Hs. destruct Hs as [Hd H46].
      rewrite Hd, H46, H45, H101, H69. cbn [andb orb].
      unfold with_stream, Stream.putBack.
      cbn [printed heap Stream.bytes Stream.pos].
      replace (Z.of_nat (List.length pre) + 1 - 1)
        with (Z.of_nat (List.length pre)) by lia.
      reflexivity.
  - destruct fuel as [|fuel]; [simpl in Hf; lia|].
    inversion Hb as [|? ? [Hc Hk] Hb']; subst.
    cbn [getNumber_loop stream app].
    rewrite getChar_at by exact Hc.
    unfold with_stream, error. cbn [printed heap stream].
    rewrite (LexerFullFacts.app_snoc pre c (body ++ rest)),
      <- (LexerFullFacts.length_snoc pre c).
    assert (Hpos : Z.of_nat (List.length (pre ++ [c])) + Z.of_nat (List.length body)
                   = Z.of_nat (List.length pre)
                     + Z.of_nat (List.length (c :: body)))
      by (rewrite LexerFullFacts.length_snoc; cbn [List.length]; lia).
    destruct Hk as [Hd | [-> | [-> | ->]]].
    + destruct (is_digit_byte_cases c Hd) as [H46 [H45 _]].
      rewrite H46, H45, Hd. cbn [andb].
      rewrite IH by (auto; simpl in Hf; lia).
      cbn [List.filter]. rewrite Hd.
      rewrite H45.
      rewrite <- app_assoc, Hpos. reflexivity.
    + cbn [Z.eqb Pos.eqb andb orb is_digit Z.leb Z.compare Pos.compare
             Pos.compare_cont].
      rewrite IH by (auto; simpl in Hf; lia).
      cbn [List.filter]. change (is_digit 101) with false.
      change (101 =? 45) with false. cbv iota.
      rewrite Hpos. reflexivity.
    + cbn [Z.eqb Pos.eqb andb orb is_digit Z.leb Z.compare Pos.compare
             Pos.compare_cont].
      rewrite IH by (auto; simpl in Hf; lia).
      cbn [List.filter]. change (is_digit 69) with false.
      change (69 =? 45) with false. cbv iota.
      rewrite Hpos. reflexivity.
    + cbn [Z.eqb Pos.eqb andb orb is_digit Z.leb Z.compare Pos.compare
             Pos.compare_cont].
      rewrite IH by (auto; simpl in Hf; lia).
      cbn [List.filter]. change (is_digit 45) with false.
      change (45 =? 45) with true. cbv iota.
      cbn [List.length List.repeat].
      rewrite <- (app_assoc pr), Hpos. reflexivity.
Qed.

(** After a first digit, [getNumber] takes every digit, exponent
    letter and minus sign that follows: the digits are kept in order,
    the exponent letters are dropped (the digits of the exponent are
    appended to the mantissa, so [1e5] is read as 15), and each minus
    sign prints [Badly formated number] and is dropped. The stream is
    left on the first character that is none of these. *)
Theorem getNumber_digits (ch : Z) (pre body rest : list Z)
        (h : list heapobj) :
  is_digit ch = true ->
  Forall num_char body ->
  ends_with number_end rest ->
  getNumber ch (at_pos (pre ++ body ++ rest) (Z.of_nat (List.length pre)) h) =
  Some (LNumber (ch :: List.filter is_digit body),
        mkState (Stream.mk (pre ++ body ++ rest)
                   (Z.of_nat (List.length pre) + Z.of_nat (List.length body)))
                (List.repeat "Badly formated number"%string
                   (List.length (List.filter (fun c => c =? 45) body)))
                h).
Proof.
  intros Hd Hb Hrest. unfold getNumber, at_pos.
  rewrite fuel_at by (rewrite length_app; lia).
  rewrite (getNumber_loop_body rest h Hrest body pre [] false [ch]);
    [|exact Hb|rewrite !length_app; lia].
  cbn [app].
  destruct (is_digit_byte_cases ch Hd) as [_ [H45 H43]].
  unfold parseFloat_isNaN. rewrite H43, H45. cbn [orb]. rewrite Hd.
  reflexivity.
Qed.

Lemma getNumber_digits_witness :
  getNumber 49 (at_pos (js "1" ++ js "e5-7" ++ js " 0 R") 1 []) =
  Some (LNumber (js "157"),
        mkState (Stream.mk (js "1" ++ js "e5-7" ++ js " 0 R") (1 + 4))
                ["Badly formated number"%string] []).
Proof.
  apply (getNumber_digits 49 (js "1") (js "e5-7") (js " 0 R") []).
  - reflexivity.
  - change (js "e5-7") with [101; 53; 45; 55].
    repeat (constructor;
            [split;
             [unfold byte; lia
             |first [left; reflexivity
                    |right; left; reflexivity
                    |right; right; left; reflexivity
                    |right; right; right; reflexivity]]|]).
    constructor.
  - change (js " 0 R") with [32; 48; 32; 82]. split; [unfold byte; lia|reflexivity].
Defined.

(** *** Strings *)

Lemma getString_loop_ends : forall fuel st str,
  (0 < fuel)%nat ->
  Stream.length (stream st) - Stream.pos (stream st) < Z.of_nat fuel ->
  str <> [] ->
  exists r, getString_loop fuel st str = Some r /\
    match r with
    | Throw e => In e getString_exceptions
    | Ok (s, st') =>
        s <> [] /\
        printed st' = printed st ++ ["Unterminated string"%string] /\
        Stream.length (stream st') < Stream.pos (stream st') /\
        heap st' = heap st
    end.
Proof.
  induction fuel as [|fuel IH]; intros st str Hpos Hf Hs; [lia|].
  destruct st as [[bs p] pr h].
  unfold Stream.length in Hf. cbn [stream Stream.bytes Stream.pos] in Hf.
  cbn [getString_loop stream].
  unfold Stream.getChar at 1. cbn [Stream.bytes Stream.pos].
  assert (Hrec : forall p' str',
             p < Z.of_nat (List.length bs) ->
             p < p' -> str' <> [] ->
             exists r,
               getString_loop fuel (mkState (Stream.mk bs p') pr h) str' = Some r /\
               match r with
               | Throw e => In e getString_exceptions
               | Ok (s, st') =>
                   s <> [] /\
                   printed st' = pr ++ ["Unterminated string"%string] /\
                   Stream.length (stream st') < Stream.pos (stream st') /\
                   heap st' = h
               end).
  { intros p' str' Hlt Hp Hs'.
    apply (IH (mkState (Stream.mk bs p') pr h) str'); [lia| |exact Hs'].
    unfold Stream.length. cbn [stream Stream.bytes Stream.pos]. lia. }
  assert (Hsnoc : forall x : Z, str ++ [x] <> [])
    by (intros x E; apply app_eq_nil in E; destruct E; discriminate).
  destruct (Stream.lookChar (Stream.mk bs p)) as [c|] eqn:El.
  2:{ eexists. split; [reflexivity|].
      unfold Stream.lookChar, Stream.length in El.
      cbn [Stream.bytes Stream.pos] in El.
      destruct (Z.leb_spec (Z.of_nat (List.length bs)) p); [|discriminate].
      unfold with_stream, error, Stream.length.
      cbn [printed heap stream Stream.bytes Stream.pos].
      repeat split; auto. lia. }
  assert (Hlt : p < Z.of_nat (List.length bs)).
  { unfold Stream.lookChar, Stream.length in El.
    cbn [Stream.bytes Stream.pos] in El.
    destruct (Z.leb_spec (Z.of_nat (List.length bs)) p); [discriminate|lia]. }
  specialize (fun p' str' => Hrec p' str' Hlt).
  unfold with_stream. cbn [printed heap stream].
  destruct (c =? 40).
  { eexists. split; [reflexivity|]. left. reflexivity. }
  destruct (c =? 41).
  { eexists. split; [reflexivity|]. left. reflexivity. }
  destruct (c =? 92); [|apply Hrec; [lia|apply Hsnoc]].
  unfold Stream.getChar at 1. cbn [Stream.bytes Stream.pos].
  destruct (Stream.lookChar (Stream.mk bs (p + 1))) as [e|] eqn:El2.
  2:{ eexists. split; [reflexivity|].
      unfold Stream.lookChar, Stream.length in El2.
      cbn [Stream.bytes Stream.pos] in El2.
      destruct (Z.leb_spec (Z.of_nat (List.length bs)) (p + 1)); [|discriminate].
      unfold error, Stream.length.
      cbn [printed heap stream Stream.bytes Stream.pos].
      repeat split; auto. lia. }
  destruct (e =? 110); [apply Hrec; [lia|apply Hsnoc]|].
  destruct (e =? 114); [apply Hrec; [lia|apply Hsnoc]|].
  destruct (e =? 116); [apply Hrec; [lia|apply Hsnoc]|].
  destruct (e =? 98); [apply Hrec; [lia|apply Hsnoc]|].
  destruct (e =? 102); [apply Hrec; [lia|apply Hsnoc]|].
  destruct ((e =? 92) || (e =? 40) || (e =? 41)).
  { eexists. split; [reflexivity|]. right. left. reflexivity. }
  destruct ((48 <=? e) && (e <=? 55)).
  { destruct (Stream.lookChar (Stream.mk bs (p + 1 + 1))) as [d|].
    - destruct ((48 <=? d) && (d <=? 55)).
      + eexists. split; [reflexivity|]. right. right. left. reflexivity.
      + apply Hrec; [lia|apply Hsnoc].
    - apply Hrec; [lia|apply Hsnoc]. }
  destruct (e =? 13).
  { destruct (Stream.lookChar (Stream.mk bs (p + 1 + 1))) as [d|].
    - destruct (Z.eqb_spec d 10) as [->|Nd].
      + unfold Stream.getChar. cbn [snd Stream.bytes Stream.pos].
        apply Hrec; [lia|exact Hs].
      + assert (H : forall (A : Type) (x y : A),
                   match d with 10 => x | _ => y end = y).
        { intros A x y. destruct d as [|q|q]; try reflexivity.
          repeat (destruct q as [q|q|]; try reflexivity). congruence. }
        rewrite H. apply Hrec; [lia|exact Hs].
    - apply Hrec; [lia|exact Hs]. }
  destruct (e =? 10); [apply Hrec; [lia|exact Hs]|].
  apply Hrec; [lia|apply Hsnoc].
Qed.

(** [getString] never returns a string closed by its parenthesis. For
    every stream and position the call ends, and it ends in one of two
    ways: an exception (on the first parenthesis, plain or escaped, on
    an escaped backslash, or on an octal escape of two digits), or the
    end of the data, with [Unterminated string] printed and what was
    read returned as the string. *)
Theorem getString_never_closed (ch : Z) (st : state) :
  exists r, getString ch st = Some r /\
    match r with
    | Throw e => In e getString_exceptions
    | Ok (l, st') =>
        (exists s, l = LString s) /\
        printed st' = printed st ++ ["Unterminated string"%string] /\
        Stream.length (stream st') < Stream.pos (stream st')
    end.
Proof.
  unfold getString.
  destruct (getString_loop_ends (getName_fuel st) st [ch]) as [r [E H]].
  - unfold getName_fuel. lia.
  - unfold getName_fuel. lia.
  - discriminate.
  - rewrite E. destruct r as [[s st']|e].
    + destruct H as [Hs [Hp [Hl _]]].
      destruct s as [|c s]; [congruence|].
      eexists. split; [reflexivity|]. cbn iota. eauto.
    + eexists. split; [reflexivity|]. exact H.
Qed.

Lemma getString_loop_plain (rest : list Z) (pr : list string) (h : list heapobj) :
  forall body pre str fuel,
    Forall string_char body ->
    (List.length body < fuel)%nat ->
    getString_loop fuel
      (mkState (Stream.mk (pre ++ body ++ 41 :: rest)
                  (Z.of_nat (List.length pre))) pr h) str
    = Some (Throw (ReferenceError "numParen")).
Proof.
  induction body as [|c body IH]; intros pre str fuel Hb Hf.
  - destruct fuel as [|fuel]; [simpl in Hf; lia|].
    cbn [getString_loop stream app].
    rewrite getChar_at by (unfold byte; lia). reflexivity.
  - destruct fuel as [|fuel]; [simpl in Hf; lia|].
    inversion Hb as [|? ? [Hc [H40 [H41 H92]]] Hb']; subst.
    cbn [getString_loop stream app].
    rewrite getChar_at by exact Hc.
    replace (c =? 40) with false by (symmetry; apply Z.eqb_neq; exact H40).
    replace (c =? 41) with false by (symmetry; apply Z.eqb_neq; exact H41).
    replace (c =? 92) with false by (symmetry; apply Z.eqb_neq; exact H92).
    unfold with_stream. cbn [printed heap].
    rewrite (LexerFullFacts.app_snoc pre c (body ++ 41 :: rest)),
      <- (LexerFullFacts.length_snoc pre c).
    apply IH; [exact Hb'|simpl in Hf; lia].
Qed.

(** A string literal closed by its parenthesis makes [getObj] throw:
    the closing parenthesis is counted in [numParen], a variable
    declared nowhere ([getString] declares [numParent]). *)
Theorem getObj_string_literal_throws (pre body rest : list Z)
        (h : list heapobj) :
  Forall string_char body ->
  getObj (at_pos (pre ++ 40 :: body ++ 41 :: rest)
            (Z.of_nat (List.length pre)) h)
  = Some (Throw (ReferenceError "numParen")).
Proof.
  intros Hb. unfold getObj, at_pos.
  rewrite fuel_at by (rewrite length_app; lia).
  cbn [skip_loop stream].
  rewrite getChar_at by (unfold byte; lia).
  change (40 =? 37) with false. change (negb (specialChars 40 =? 1)) with true.
  cbv iota.
  change (is_digit 40 || (40 =? 43) || (40 =? 45) || (40 =? 46)) with false.
  change (40 =? 40) with true. cbv iota.
  unfold getString, with_stream. cbn [printed heap stream].
  rewrite (LexerFullFacts.app_snoc pre 40 (body ++ 41 :: rest)),
    <- (LexerFullFacts.length_snoc pre 40).
  rewrite getString_loop_plain; [reflexivity|exact Hb|].
  unfold getName_fuel, Stream.length. cbn [stream Stream.bytes Stream.pos].
  rewrite !length_app. cbn [List.length]. lia.
Qed.

Lemma getObj_string_literal_throws_witness :
  getObj (at_pos (js "/Title " ++ 40 :: js "Hello" ++ 41 :: js " >>") 7 [])
  = Some (Throw (ReferenceError "numParen")).
Proof.
  apply (getObj_string_literal_throws (js "/Title ") (js "Hello") (js " >>") []).
  change (js "Hello") with [72; 101; 108; 108; 111].
  repeat (constructor;
          [split; [unfold byte; lia|repeat split; discriminate]|]).
  constructor.
Defined.

End LexerObjFacts.

(** ** Parser: what [getObj] makes of the lexer's tokens *)

Module ParserFullFacts.

Import ParserFull.

Lemma new_cons (o : obj) (l : lexer) (a : bool) :
  new (o :: l) a = mk (snd (lexer_getObj l)) a 0 o (fst (lexer_getObj l)).
Proof. destruct l; reflexivity. Qed.

Lemma new_eq (l : lexer) (a : bool) :
  new l a =
  mk (snd (lexer_getObj (snd (lexer_getObj l)))) a 0
     (fst (lexer_getObj l)) (fst (lexer_getObj (snd (lexer_getObj l)))).
Proof. destruct l as [|o [|o' l]]; reflexivity. Qed.

(** A shift of a fresh parser whose second token is not [ID] gives
    the fresh parser of the remaining tokens. *)
Lemma shift_new (l : lexer) (a : bool) :
  IsCmd (fst (lexer_getObj (snd (lexer_getObj l)))) (js "ID") = false ->
  shift (new l a) = Ok (new (snd (lexer_getObj l)) a).
Proof.
  intros H. rewrite new_eq. unfold shift. cbn [inlineImg buf2 lex allowStreams].
  change (0 <? 0) with false. cbv iota. rewrite H.
  rewrite (new_eq (snd (lexer_getObj l))).
  destruct (lexer_getObj (snd (lexer_getObj (snd (lexer_getObj l)))));
    reflexivity.
Qed.

Lemma plain_second (l : lexer) :
  Forall plain l -> plain (fst (lexer_getObj (snd (lexer_getObj l)))).
Proof.
  intros H. destruct l as [|o [|o' l]];
    try (repeat split; reflexivity).
  inversion H as [|? ? _ H']; subst. inversion H' as [|? ? Ho' _]; subst.
  exact Ho'.
Qed.

Lemma plain_first (l : lexer) :
  Forall plain l -> plain (fst (lexer_getObj l)).
Proof.
  intros H. destruct l as [|o l]; [repeat split; reflexivity|].
  inversion H; subst; assumption.
Qed.

Lemma plain_rest (l : lexer) :
  Forall plain l -> Forall plain (snd (lexer_getObj l)).
Proof.
  intros H. destruct l as [|o l]; [constructor|].
  inversion H; subst; assumption.
Qed.

(** On a token stream without array or dictionary openings, [ID] and
    [R], the parser hands the lexer's tokens on one by one: [getObj]
    returns the next token and leaves the parser as a fresh parser on
    the remaining tokens. *)
Theorem getObj_plain (l : lexer) (a : bool) (fuel : nat) :
  Forall plain l ->
  getObj (S fuel) (new l a) =
  Some (Ok (fst (Parser.getObj l), new (snd (Parser.getObj l)) a)).
Proof.
  intros Hl.
  pose proof (plain_first l Hl) as [Harr [Hdict _]].
  pose proof (plain_second l Hl) as [_ [_ [Hid _]]].
  pose proof (plain_second (snd (lexer_getObj l)) (plain_rest l Hl))
    as [_ [_ [_ HR]]].
  cbn [getObj].
  replace (inlineImg (new l a) =? 2) with false by (rewrite new_eq; reflexivity).
  replace (buf1 (new l a)) with (fst (lexer_getObj l))
    by (rewrite new_eq; reflexivity).
  rewrite Harr, Hdict, (shift_new l a Hid).
  replace (buf2 (new (snd (lexer_getObj l)) a))
    with (fst (lexer_getObj (snd (lexer_getObj (snd (lexer_getObj l))))))
    by (rewrite (new_eq (snd (lexer_getObj l))); reflexivity).
  rewrite HR, andb_false_r.
  destruct (IsInt (fst (lexer_getObj l))); reflexivity.
Qed.

Lemma getObj_plain_witness :
  getObj 1 (new [OInt 0; OInt 65535; OCmd (js "f"); OCmd (js "trailer")] false) =
  Some (Ok (OInt 0, new [OInt 65535; OCmd (js "f"); OCmd (js "trailer")] false)).
Proof.
  apply (getObj_plain [OInt 0; OInt 65535; OCmd (js "f"); OCmd (js "trailer")]
           false 0).
  repeat (constructor; [repeat split; reflexivity|]). constructor.
Defined.

(** An indirect reference: two integers and the command [R] come back
    as one Ref object, and the parser goes on after the [R]. *)
Theorem getObj_reference (num gen : Z) (rest : lexer) (a : bool)
        (fuel : nat) :
  IsInt (OInt num) = true ->
  IsInt (OInt gen) = true ->
  IsCmd (fst (lexer_getObj rest)) (js "ID") = false ->
  getObj (S fuel) (new (OInt num :: OInt gen :: OCmd (js "R") :: rest) a) =
  Some (Ok (ORef num gen, new rest a)).
Proof.
  intros Hn Hg Hid. cbn [getObj].
  rewrite new_cons. cbn [inlineImg buf1 lexer_getObj Parser.getObj fst snd].
  change (0 =? 2) with false. cbv iota. cbn [buf1].
  change (IsCmd (OInt num) (js "[")) with false.
  change (IsCmd (OInt num) (js "<<")) with false. cbv iota.
  rewrite Hn.
  change (mk (OCmd (js "R") :: rest) a 0 (OInt num) (OInt gen))
    with (new (OInt num :: OInt gen :: OCmd (js "R") :: rest) a).
  rewrite shift_new by reflexivity.
  cbn [lexer_getObj Parser.getObj snd].
  rewrite (new_cons (OInt gen)).
  cbn [buf1 buf2 lexer_getObj Parser.getObj fst snd]. rewrite Hg.
  change (IsCmd (OCmd (js "R")) (js "R")) with true. cbn [andb int_of].
  change (mk rest a 0 (OInt gen) (OCmd (js "R")))
    with (new (OInt gen :: OCmd (js "R") :: rest) a).
  rewrite shift_new by reflexivity.
  cbn [lexer_getObj Parser.getObj snd].
  rewrite shift_new by exact Hid.
  reflexivity.
Qed.

Lemma getObj_reference_witness :
  getObj 1 (new [OInt 12; OInt 0; OCmd (js "R"); OName (js "Type")] true) =
  Some (Ok (ORef 12 0, new [OName (js "Type")] true)).
Proof.
  apply (getObj_reference 12 0 [OName (js "Type")] true 0); reflexivity.
Defined.

(** An array never comes back: [getObj] tests [buf1] for the command
    [[] and, without shifting it away, calls itself for the first
    element, which tests the same [buf1] again. No fuel is enough. *)
Theorem getObj_array_never_returns (rest : lexer) (a : bool) (fuel : nat) :
  getObj fuel (new (OCmd (js "[") :: rest) a) = None.
Proof.
  rewrite new_cons.
  induction fuel as [|fuel IH]; [reflexivity|].
  cbn [getObj inlineImg buf1].
  change (0 =? 2) with false. cbv iota. cbn [buf1].
  change (IsCmd (OCmd (js "[")) (js "[")) with true. cbv iota.
  destruct fuel as [|fuel']; [reflexivity|].
  cbn [buf1].
  change (IsCmd (OCmd (js "[")) (js "]")) with false.
  change (IsEOF (OCmd (js "["))) with false. cbn [negb andb].
  rewrite IH. reflexivity.
Qed.

(** A dictionary with a key never comes back as a Dict: the branch
    reads the key from [buf1], a variable declared nowhere (the field
    is [this.buf1]). *)
Theorem getObj_dictionary_key_throws (key : jsstring) (rest : lexer)
        (a : bool) (fuel : nat) :
  getObj (S fuel) (new (OCmd (js "<<") :: OName key :: rest) a) =
  Some (Throw (ReferenceError "buf1")).
Proof.
  cbn [getObj]. rewrite new_cons.
  cbn [inlineImg buf1 lexer_getObj Parser.getObj fst snd].
  change (0 =? 2) with false. cbv iota. cbn [buf1].
  change (IsCmd (OCmd (js "<<")) (js "[")) with false.
  change (IsCmd (OCmd (js "<<")) (js "<<")) with true. cbv iota.
  unfold shift. cbn [inlineImg buf2 lex allowStreams].
  change (0 <? 0) with false. cbv iota.
  change (IsCmd (OName key) (js "ID")) with false. cbv iota.
  destruct (lexer_getObj rest) as [o l]. cbn [buf1].
  reflexivity.
Qed.

End ParserFullFacts.

(** ** Fonts: byte conversions, [decrypt] and [encodeNumber] *)

Module FontsFacts.

Import FontsUtils Type1Decrypt CFFEncode LexerFull.

Lemma ToInt32_range (z : Z) : -2147483648 <= ToInt32 z < 2147483648.
Proof. unfold ToInt32. pose proof (Z.mod_pos_bound (z + 2147483648) 4294967296). lia. Qed.

Lemma ToInt32_small (z : Z) :
  -2147483648 <= z < 2147483648 -> ToInt32 z = z.
Proof.
  intros H. unfold ToInt32.
  rewrite Z.mod_small by lia. lia.
Qed.

Lemma ToInt32_mod (z : Z) : ToInt32 z mod 256 = z mod 256.
Proof.
  unfold ToInt32.
  pose proof (Z.div_mod (z + 2147483648) 4294967296 ltac:(lia)) as E.
  replace ((z + 2147483648) mod 4294967296 - 2147483648)
    with (z + (- (16777216 * ((z + 2147483648) / 4294967296))) * 256) by lia.
  apply Z.mod_add. lia.
Qed.

Lemma shl8 (x : Z) :
  -8388608 <= x < 8388608 -> js_shl (Num x) 8 = x * 256.
Proof.
  intros H. unfold js_shl, jsnum_ToInt32.
  rewrite (ToInt32_small x) by lia.
  change (8 mod 32) with 8. rewrite Z.shiftl_mul_pow2 by lia.
  change (2 ^ 8) with 256. apply ToInt32_small. lia.
Qed.

Lemma shr_div (x k : Z) :
  0 <= k < 32 -> js_shr (Num x) k = ToInt32 x / 2 ^ k.
Proof.
  intros H. unfold js_shr, jsnum_ToInt32. rewrite Z.mod_small by lia.
  apply Z.shiftr_div_pow2. lia.
Qed.

Lemma bytesToInteger_integerToBytes_4_aux (aValue : Z) :
  exists l,
    integerToBytes aValue 4 = Bytes l /\
    Forall byte l /\
    bytesToInteger l = ToInt32 aValue.
Proof.
  eexists. split; [reflexivity|].
  rewrite !shr_div by lia.
  pose proof (ToInt32_range aValue) as R.
  pose proof (ToInt32_mod aValue) as M.
  set (x := ToInt32 aValue) in *.
  unfold ToUint8. rewrite <- M.
  change (2 ^ 24) with 16777216. change (2 ^ 16) with 65536.
  change (2 ^ 8) with 256.
  split.
  - repeat constructor; unfold byte; apply Z.mod_pos_bound; lia.
  - unfold bytesToInteger. cbn [fold_left].
    pose proof (Z.mod_pos_bound (x / 16777216) 256 ltac:(lia)) as B0.
    pose proof (Z.mod_pos_bound (x / 65536) 256 ltac:(lia)) as B1.
    pose proof (Z.mod_pos_bound (x / 256) 256 ltac:(lia)) as B2.
    pose proof (Z.mod_pos_bound x 256 ltac:(lia)) as B3.
    rewrite (shl8 0) by lia. rewrite Z.mul_0_l, Z.add_0_l.
    rewrite (shl8 ((x / 16777216) mod 256)) by lia.
    rewrite (shl8 ((x / 16777216) mod 256 * 256 + (x / 65536) mod 256)) by lia.
    set (b0 := (x / 16777216) mod 256) in *.
    set (b1 := (x / 65536) mod 256) in *.
    set (b2 := (x / 256) mod 256) in *.
    set (b3 := x mod 256) in *.
    assert (E : x = (if x <? 0 then b0 - 256 else b0) * 16777216
                    + b1 * 65536 + b2 * 256 + b3).
    { unfold b0, b1, b2, b3. destruct (Z.ltb_spec x 0);
        Z.div_mod_to_equations; lia. }
    unfold js_shl, jsnum_ToInt32.
    rewrite (ToInt32_small ((b0 * 256 + b1) * 256 + b2)) by lia.
    change (8 mod 32) with 8. rewrite Z.shiftl_mul_pow2 by lia.
    change (2 ^ 8) with 256.
    unfold ToInt32 at 1.
    destruct (Z.ltb_spec x 0).
    + replace ((((b0 * 256 + b1) * 256 + b2) * 256 + 2147483648) mod 4294967296)
        with (((b0 * 256 + b1) * 256 + b2) * 256 - 2147483648).
      * lia.
      * apply Z.mod_unique with (q := 1); lia.
    + rewrite Z.mod_small by lia. lia.
Qed.

(** Four bytes, highest first, and back: [bytesToInteger] returns
    what [integerToBytes] was given, as a signed 32-bit integer; the
    four values are bytes. *)
Theorem bytesToInteger_integerToBytes_4 (aValue : Z) :
  exists l,
    integerToBytes aValue 4 = Bytes l /\
    Forall byte l /\
    bytesToInteger l = ToInt32 aValue.
Proof. exact (bytesToInteger_integerToBytes_4_aux aValue). Qed.

Lemma bytesToInteger_integerToBytes_2_aux (aValue : Z) :
  exists l,
    integerToBytes aValue 2 = Bytes l /\
    Forall byte l /\
    bytesToInteger l = aValue mod 65536.
Proof.
  eexists. split; [reflexivity|].
  rewrite !shr_div by lia.
  pose proof (ToInt32_range aValue) as R.
  pose proof (ToInt32_mod aValue) as M.
  assert (M16 : ToInt32 aValue mod 65536 = aValue mod 65536).
  { unfold ToInt32.
    pose proof (Z.div_mod (aValue + 2147483648) 4294967296 ltac:(lia)) as E.
    replace ((aValue + 2147483648) mod 4294967296 - 2147483648)
      with (aValue + (- (65536 * ((aValue + 2147483648) / 4294967296))) * 65536)
      by lia.
    apply Z.mod_add. lia. }
  set (x := ToInt32 aValue) in *.
  unfold ToUint8. rewrite <- M, <- M16.
  change (2 ^ 8) with 256.
  split.
  - repeat constructor; unfold byte; apply Z.mod_pos_bound; lia.
  - unfold bytesToInteger. cbn [fold_left].
    pose proof (Z.mod_pos_bound (x / 256) 256 ltac:(lia)) as B0.
    pose proof (Z.mod_pos_bound x 256 ltac:(lia)) as B1.
    rewrite (shl8 0) by lia. rewrite Z.mul_0_l, Z.add_0_l.
    rewrite (shl8 ((x / 256) mod 256)) by lia.
    Z.div_mod_to_equations. lia.
Qed.

(** Two bytes and back: [bytesToInteger] returns the low 16 bits of
    what [integerToBytes] was given. *)
Theorem bytesToInteger_integerToBytes_2 (aValue : Z) :
  exists l,
    integerToBytes aValue 2 = Bytes l /\
    Forall byte l /\
    bytesToInteger l = aValue mod 65536.
Proof. exact (bytesToInteger_integerToBytes_2_aux aValue). Qed.

(** *** [decrypt] *)

Lemma next_r_range (value r : Z) : 0 <= next_r value r < 65536.
Proof.
  unfold next_r, js_and.
  change (ToInt32 (js_shl (Num 1) 16 - 1)) with (Z.ones 16).
  rewrite Z.land_ones by lia. change (2 ^ 16) with 65536.
  apply Z.mod_pos_bound. lia.
Qed.

Lemma lxor_byte (a b : Z) : byte a -> byte b -> byte (Z.lxor a b).
Proof.
  unfold byte. intros Ha Hb.
  assert (H0 : 0 <= Z.lxor a b) by (apply Z.lxor_nonneg; lia).
  split; [exact H0|].
  destruct (Z.eq_dec (Z.lxor a b) 0) as [->|Hne]; [lia|].
  apply (Z.log2_lt_pow2 _ 8); [lia|].
  pose proof (Z.log2_lxor a b ltac:(lia) ltac:(lia)) as Hl.
  assert (La : Z.log2 a < 8).
  { destruct (Z.eq_dec a 0) as [->|]; [cbn; lia|].
    apply Z.log2_lt_pow2; lia. }
  assert (Lb : Z.log2 b < 8).
  { destruct (Z.eq_dec b 0) as [->|]; [cbn; lia|].
    apply Z.log2_lt_pow2; lia. }
  lia.
Qed.

Lemma decrypt_loop_bytes : forall aStream r,
  Forall byte aStream -> 0 <= r < 65536 ->
  Forall byte (decrypt_loop aStream r) /\
  List.length (decrypt_loop aStream r) = List.length aStream.
Proof.
  induction aStream as [|value rest IH]; intros r Hs Hr.
  - split; [constructor|reflexivity].
  - inversion Hs as [|? ? Hv Hrest]; subst. cbn [decrypt_loop List.length].
    destruct (IH (next_r value r) Hrest (next_r_range value r)) as [IH1 IH2].
    split; [|rewrite IH2; reflexivity].
    constructor; [|exact IH1].
    unfold js_xor. rewrite shr_div by lia.
    unfold byte in Hv.
    rewrite (ToInt32_small value), (ToInt32_small r) by lia.
    change (2 ^ 8) with 256.
    assert (Hq : byte (r / 256)).
    { unfold byte. split; [apply Z.div_pos; lia|].
      apply Z.div_lt_upper_bound; lia. }
    rewrite (ToInt32_small (r / 256)) by (unfold byte in Hq; lia).
    apply lxor_byte; [exact Hv|exact Hq].
Qed.

(** [decrypt] turns bytes into bytes: for a key below 65536 every
    value of the result is a byte again, and the result has the
    length of the input less the discarded values. *)
Theorem decrypt_bytes (aStream : list Z) (aKey aDiscardNumber : Z) :
  Forall byte aStream ->
  0 <= aKey < 65536 ->
  0 <= aDiscardNumber ->
  Forall byte (decrypt aStream aKey aDiscardNumber) /\
  List.length (decrypt aStream aKey aDiscardNumber)
  = (List.length aStream - Z.to_nat aDiscardNumber)%nat.
Proof.
  intros Hs Hk Hn. unfold decrypt, slice.
  replace (aDiscardNumber <? 0) with false by (symmetry; apply Z.ltb_ge; lia).
  destruct (decrypt_loop_bytes aStream aKey Hs Hk) as [Hb Hl].
  split.
  - apply Forall_drop. exact Hb.
  - rewrite length_skipn, Hl. reflexivity.
Qed.

Lemma decrypt_bytes_witness :
  Forall byte (decrypt [233; 138; 9; 216; 17] kEexecEncryptionKey 4) /\
  List.length (decrypt [233; 138; 9; 216; 17] kEexecEncryptionKey 4)
  = (List.length [233; 138; 9; 216; 17] - Z.to_nat 4)%nat.
Proof.
  apply (decrypt_bytes [233; 138; 9; 216; 17] kEexecEncryptionKey 4).
  - repeat (constructor; [unfold byte; lia|]). constructor.
  - unfold kEexecEncryptionKey. lia.
  - lia.
Defined.

Lemma decrypt_loop_app : forall s1 s2 r,
  decrypt_loop (s1 ++ s2) r
  = decrypt_loop s1 r ++ decrypt_loop s2 (key_after s1 r).
Proof.
  induction s1 as [|v s1 IH]; intros s2 r; [reflexivity|].
  cbn [app decrypt_loop key_after]. rewrite IH. reflexivity.
Qed.

Lemma decrypt_loop_length : forall s r,
  List.length (decrypt_loop s r) = List.length s.
Proof.
  induction s as [|v s IH]; intros r; [reflexivity|].
  cbn [decrypt_loop List.length]. rewrite IH. reflexivity.
Qed.

(** The discarded values only move the key: decrypting with the
    first values discarded is decrypting what follows them from the
    key the loop has reached after them, with nothing discarded. *)
Theorem decrypt_discard (head tail : list Z) (aKey : Z) :
  decrypt (head ++ tail) aKey (Z.of_nat (List.length head))
  = decrypt tail (key_after head aKey) 0.
Proof.
  unfold decrypt, slice.
  replace (Z.of_nat (List.length head) <? 0) with false
    by (symmetry; apply Z.ltb_ge; lia).
  change (0 <? 0) with false. cbv iota.
  rewrite Nat2Z.id. change (Z.to_nat 0) with 0%nat. cbn [skipn].
  rewrite decrypt_loop_app.
  rewrite <- (decrypt_loop_length head aKey).
  rewrite skipn_app, Nat.sub_diag, skipn_all. reflexivity.
Qed.

(** *** [encodeNumber] *)

(** A value of 16 bits is encoded as 28 and two numbers that
    recombine to it: the second is the value shifted right by eight
    and keeps the sign (it is not masked to a byte), the third is the
    low byte. *)
Theorem encodeNumber_short (aValue : Z) :
  -32768 <= aValue <= 32767 ->
  exists hi lo,
    encodeNumber aValue = Encoded [28; hi; lo] /\
    -128 <= hi <= 127 /\ 0 <= lo <= 255 /\
    hi * 256 + lo = aValue.
Proof.
  intros H. unfold encodeNumber.
  replace ((-32768 <=? aValue) && (aValue <=? 32767)) with true
    by (symmetry; apply andb_true_intro; split; apply Z.leb_le; lia).
  eexists. eexists. split; [reflexivity|].
  rewrite shr_div by lia. unfold js_and.
  rewrite (ToInt32_small aValue) by lia.
  change (ToInt32 255) with (Z.ones 8).
  rewrite Z.land_ones by lia. change (2 ^ 8) with 256.
  Z.div_mod_to_equations. lia.
Qed.

Lemma encodeNumber_short_witness :
  exists hi lo,
    encodeNumber (-1200) = Encoded [28; hi; lo] /\
    -128 <= hi <= 127 /\ 0 <= lo <= 255 /\
    hi * 256 + lo = -1200.
Proof. apply (encodeNumber_short (-1200)). lia. Defined.

(** No value outside the 16-bit range is encoded: for a value of 32
    bits the array literal reads [Value], which is declared nowhere,
    and any other value goes to the [error] call. *)
Theorem encodeNumber_long_fails (aValue : Z) :
  aValue < -32768 \/ 32767 < aValue ->
  (forall l, encodeNumber aValue <> Encoded l) /\
  (-2147483648 <= aValue <= 2147483647 ->
   encodeNumber aValue = ValueUndeclared).
Proof.
  intros H. unfold encodeNumber.
  replace ((-32768 <=? aValue) && (aValue <=? 32767)) with false.
  - split.
    + intros l. destruct (_ && _); discriminate.
    + intros R.
      replace ((-2147483647 - 1 <=? aValue) && (aValue <=? 2147483647))
        with true; [reflexivity|].
      symmetry. apply andb_true_intro. split; apply Z.leb_le; lia.
  - symmetry. apply andb_false_iff.
    destruct H; [left; apply Z.leb_gt; lia|right; apply Z.leb_gt; lia].
Qed.

Lemma encodeNumber_long_fails_witness :
  (forall l, encodeNumber 100000 <> Encoded l) /\
  (-2147483648 <= 100000 <= 2147483647 ->
   encodeNumber 100000 = ValueUndeclared).
Proof. apply (encodeNumber_long_fails 100000). right. lia. Defined.

End FontsFacts.

(** ** Dict, [readXRef] and the CFF index header *)

Module MoreFacts.

Import FontsUtils CFFIndex LexerFull.

(** A value set on a Dict is the value read back, the key is
    contained from then on (also when the value is [undefined]), and
    no other key is touched. *)
Theorem Dict_set_get (d : Dict.t) (key other : jsstring) (value : obj) :
  other <> key ->
  Dict.get (Dict.set d key value) key = value /\
  Dict.contains (Dict.set d key value) key = true /\
  Dict.get (Dict.set d key value) other = Dict.get d other /\
  Dict.contains (Dict.set d key value) other = Dict.contains d other.
Proof.
  intros Hne. unfold Dict.get, Dict.contains, Dict.set. cbn [Dict.assoc].
  unfold jsstring_eqb.
  rewrite bool_decide_eq_true_2 by reflexivity.
  rewrite bool_decide_eq_false_2 by congruence.
  repeat split; reflexivity.
Qed.

Lemma Dict_set_get_witness :
  Dict.get (Dict.set [] (js "N") OUndefined) (js "N") = OUndefined /\
  Dict.contains (Dict.set [] (js "N") OUndefined) (js "N") = true /\
  Dict.get (Dict.set [] (js "N") OUndefined) (js "L") = Dict.get [] (js "L") /\
  Dict.contains (Dict.set [] (js "N") OUndefined) (js "L")
  = Dict.contains [] (js "L").
Proof.
  apply (Dict_set_get [] (js "N") (js "L") OUndefined). discriminate.
Defined.

(** [readXRef] returns true only through an old-style table: the
    first object at [startXRef] is the command [xref] and the result
    is that of [readXRefTable] on what follows. A cross-reference
    stream ([n g obj ...]) is always answered with false. *)
Theorem readXRef_needs_table (entries : gmap Z XRef.entry) (p : Parser.t)
        (r : XRef.result) :
  XRefRead.readXRef entries p = Some r ->
  XRef.returned r = true ->
  IsCmd (fst (Parser.getObj p)) (js "xref") = true /\
  XRef.readXRefTable entries (snd (Parser.getObj p)) = Some r.
Proof.
  unfold XRefRead.readXRef.
  destruct (Parser.getObj p) as [o p1]. cbn [fst snd].
  destruct (IsCmd o (js "xref")); [auto|].
  destruct (IsInt o).
  - destruct (Parser.getObj p1) as [o2 p2].
    destruct (negb (IsInt o2)); [intros [= <-]; discriminate|].
    destruct (Parser.getObj p2) as [o3 p3].
    destruct (negb (IsCmd o3 (js "obj"))); [intros [= <-]; discriminate|].
    destruct (Parser.getObj p3) as [o4 p4].
    cbn [XRefRead.IsStream negb]. intros [= <-]; discriminate.
  - intros [= <-]; discriminate.
Qed.

Lemma readXRef_needs_table_witness :
  IsCmd (fst (Parser.getObj [OCmd (js "xref"); OCmd (js "trailer")]))
        (js "xref") = true /\
  XRef.readXRefTable XRef.fresh
    (snd (Parser.getObj [OCmd (js "xref"); OCmd (js "trailer")]))
  = Some (XRef.mkResult true XRef.fresh true).
Proof.
  apply (readXRef_needs_table XRef.fresh
           [OCmd (js "xref"); OCmd (js "trailer")]
           (XRef.mkResult true XRef.fresh true)); reflexivity.
Defined.

(** *** The index header *)

Lemma pushed_4 (v : Z) :
  List.length (pushed (integerToBytes v 4)) = 4%nat.
Proof. reflexivity. Qed.

Lemma offsets_loop_length : forall objs r,
  List.length (offsets_loop objs r) = (4 * S (List.length objs))%nat.
Proof.
  induction objs as [|o objs IH]; intros r.
  - reflexivity.
  - cbn [offsets_loop]. rewrite length_app, pushed_4, IH.
    cbn [List.length]. lia.
Qed.

Lemma total_length_cons (o : object) (l : list object) :
  total_length (o :: l) = Z.of_nat (List.length o) + total_length l.
Proof. unfold total_length. cbn [List.concat]. rewrite length_app. lia. Qed.

Lemma offsets_loop_read : forall objs r i,
  (i <= List.length objs)%nat ->
  firstn 4 (skipn (4 * i) (offsets_loop objs r))
  = pushed (integerToBytes (r + total_length (firstn i objs)) 4).
Proof.
  induction objs as [|o objs IH]; intros r i Hi.
  - cbn [List.length] in Hi. assert (i = 0%nat) as -> by lia.
    cbn [firstn]. unfold total_length. cbn [List.concat List.length Z.of_nat].
    rewrite Z.add_0_r. reflexivity.
  - destruct i as [|i].
    + cbn [firstn]. unfold total_length at 1.
      cbn [List.concat List.length Z.of_nat]. rewrite Z.add_0_r.
      reflexivity.
    + cbn [List.length] in Hi.
      cbn [offsets_loop].
      replace (4 * S i)%nat with (4 + 4 * i)%nat by lia.
      rewrite skipn_app, pushed_4.
      rewrite (skipn_all2 (pushed (integerToBytes r 4)))
        by (rewrite pushed_4; lia).
      replace (4 + 4 * i - 4)%nat with (4 * i)%nat by lia.
      cbn [app].
      rewrite IH by lia.
      cbn [firstn]. rewrite total_length_cons.
      f_equal. f_equal. lia.
Qed.

Lemma roundtrip_4 (v : Z) :
  -2147483648 <= v < 2147483648 ->
  bytesToInteger (pushed (integerToBytes v 4)) = v.
Proof.
  intros H.
  destruct (FontsFacts.bytesToInteger_integerToBytes_4_aux v) as [l [E [_ R]]].
  rewrite E. cbn [pushed]. rewrite R. apply FontsFacts.ToInt32_small. exact H.
Qed.

(** The layout of a non-empty index: two bytes that read back as the
    number of objects, the offset size 4, one 4-byte offset per
    object and one more, and the objects' values. The offset of
    number [i] reads back as 1 plus the lengths of the objects before
    it, so the last one is 1 plus the length of the data. *)
Theorem createCFFIndexHeader_layout (aObjects : list object) (i : nat) :
  aObjects <> [] ->
  Z.of_nat (List.length aObjects) < 65536 ->
  total_length aObjects < 2147483647 ->
  (i <= List.length aObjects)%nat ->
  exists count offsets,
    createCFFIndexHeader aObjects
    = count ++ [4] ++ offsets ++ List.concat aObjects /\
    List.length count = 2%nat /\
    bytesToInteger count = Z.of_nat (List.length aObjects) /\
    List.length offsets = (4 * S (List.length aObjects))%nat /\
    bytesToInteger (firstn 4 (skipn (4 * i) offsets))
    = 1 + total_length (firstn i aObjects).
Proof.
  intros Hne Hcount Htotal Hi.
  exists (pushed (integerToBytes (Z.of_nat (List.length aObjects)) 2)).
  exists (offsets_loop aObjects 1).
  split; [|split; [|split; [|split]]].
  - unfold createCFFIndexHeader.
    destruct aObjects as [|o l]; [congruence|].
    replace (Z.of_nat (List.length (o :: l)) =? 0) with false
      by (symmetry; apply Z.eqb_neq; cbn [List.length]; lia).
    reflexivity.
  - reflexivity.
  - destruct (FontsFacts.bytesToInteger_integerToBytes_2_aux
                (Z.of_nat (List.length aObjects))) as [l [E [_ R]]].
    rewrite E. cbn [pushed]. rewrite R. apply Z.mod_small. lia.
  - apply offsets_loop_length.
  - rewrite offsets_loop_read by exact Hi.
    apply roundtrip_4.
    assert (0 <= total_length (firstn i aObjects) <= total_length aObjects).
    { unfold total_length. split; [lia|].
      apply inj_le.
      rewrite <- (firstn_skipn i aObjects) at 2.
      rewrite concat_app, length_app. lia. }
    lia.
Qed.

Lemma createCFFIndexHeader_layout_witness :
  exists count offsets,
    createCFFIndexHeader [js "Times"; js ""; js "ab"]
    = count ++ [4] ++ offsets ++ List.concat [js "Times"; js ""; js "ab"] /\
    List.length count = 2%nat /\
    bytesToInteger count = Z.of_nat (List.length [js "Times"; js ""; js "ab"]) /\
    List.length offsets = (4 * S (List.length [js "Times"; js ""; js "ab"]))%nat /\
    bytesToInteger (firstn 4 (skipn (4 * 2) offsets))
    = 1 + total_length (firstn 2 [js "Times"; js ""; js "ab"]).
Proof.
  apply (createCFFIndexHeader_layout [js "Times"; js ""; js "ab"] 2).
  - discriminate.
  - cbn [List.length]. lia.
  - vm_compute. reflexivity.
  - cbn [List.length]. lia.
Defined.

(** An empty index is the three bytes 0, 0, 0. *)
Lemma createCFFIndexHeader_empty : createCFFIndexHeader [] = [0; 0; 0].
Proof. reflexivity. Qed.

End MoreFacts.
